(** * geodude: geohashes for lists of coordinates

    A shallow embedding of [src/geodude/cluster_functions.py]:

    - [_calculate_single_geohash], the range checks followed by the call of
      the encoder, wrapped by [functools.lru_cache(maxsize=10000)];
    - [calculate_geohashes], the public batch operation.

    Python floats are IEEE 754 binary64 values ([spec_float] with
    [prec = 53], [emax = 1024]); Python ints are [Z]; an f-string is kept
    as its literal pieces and the values it interpolates; [raise] is the
    [Raise] outcome of a computation that threads the memoization state. *)

From Stdlib Require Import ZArith List String Ascii Bool Lia SpecFloat.
Import ListNotations.
Local Open Scope string_scope.
Local Open Scope list_scope.
Local Open Scope Z_scope.

(** ** Python values *)

Module Py.

(** [float]: binary64. *)
Definition float : Type := spec_float.

Definition prec : Z := 53.
Definition emax : Z := 1024.

(** [float(z)] for an int literal; exact for the small constants of the
    source. *)
Definition of_int (z : Z) : float := binary_normalize prec emax z 0 false.

Definition add (x y : float) : float := SFadd prec emax x y.
Definition div (x y : float) : float := SFdiv prec emax x y.

(** [x <= y], [x < y] and [x == y] on floats. *)
Definition le (x y : float) : bool := SFleb x y.
Definition lt (x y : float) : bool := SFltb x y.
Definition eq (x y : float) : bool := SFeqb x y.

(** A value interpolated by an f-string. *)
Inductive value : Type :=
| Float (x : float)
| Int (z : Z).

(** An f-string: literal text and [{...}] fields, left to right. *)
Inductive piece : Type :=
| Lit (s : string)
| Fmt (v : value).

Definition fstring : Type := list piece.

(** The only exception the module raises. *)
Inductive exn : Type :=
| ValueError (msg : fstring).

(** Outcome of a call: a returned value or a raised exception. *)
Inductive outcome (A : Type) : Type :=
| Return (a : A)
| Raise (e : exn).

Arguments Return {A} a.
Arguments Raise {A} e.

End Py.

Import Py.

(** ** The encoder *)

Module geohash.

(** Modelled from the spec: [pygeodesy.geohash.encode], the external
    encoder the source imports and which is not part of this repository.
    Spec, section 6: "implementing the standard interleaved-bit geohash
    algorithm over the 32-character alphabet
    0123456789bcdefghjkmnpqrstuvwxyz", "iteratively bisecting the
    latitude and longitude ranges, interleaving bits starting with
    longitude, grouping every 5 bits into one base-32 character". *)

Definition _GeohashBase32 : string := "0123456789bcdefghjkmnpqrstuvwxyz".

(** The current cell: south/north and west/east bounds. *)
Record cell : Type := Cell {
  latS : float; latN : float;
  lonW : float; lonE : float
}.

Definition world : cell :=
  {| latS := of_int (-90); latN := of_int 90;
     lonW := of_int (-180); lonE := of_int 180 |}.

Definition favg (a b : float) : float := div (add a b) (of_int 2).

(** One bisection; [e] tells whether the longitude is bisected.  The bit
    is set when the coordinate lies in the upper half. *)
Definition bisect (e : bool) (lat lon : float) (c : cell) : bool * cell :=
  if e then
    let m := favg (lonW c) (lonE c) in
    if lt lon m
    then (false, Cell (latS c) (latN c) (lonW c) m)
    else (true, Cell (latS c) (latN c) m (lonE c))
  else
    let m := favg (latS c) (latN c) in
    if lt lat m
    then (false, Cell (latS c) m (lonW c) (lonE c))
    else (true, Cell m (latN c) (lonW c) (lonE c)).

(** [b] further bisections, shifting each bit into the index [i]. *)
Fixpoint bits (b : nat) (e : bool) (lat lon : float) (c : cell) (i : nat)
  : nat * bool * cell :=
  match b with
  | O => (i, e, c)
  | S b' =>
      let '(bit, c') := bisect e lat lon c in
      bits b' (negb e) lat lon c' (i + i + (if bit then 1 else 0))%nat
  end.

(** [p] characters, five bits each. *)
Fixpoint chars (p : nat) (e : bool) (lat lon : float) (c : cell)
  : list ascii :=
  match p with
  | O => []
  | S p' =>
      let '(i, e', c') := bits 5 e lat lon c 0%nat in
      nth i (list_ascii_of_string _GeohashBase32) "0"%char
        :: chars p' e' lat lon c'
  end.

Definition encode (lat lon : float) (precision : Z) : string :=
  string_of_list_ascii (chars (Z.to_nat precision) true lat lon world).

End geohash.

(** ** [functools.lru_cache] *)

Section LruCache.

Variables K V : Type.

(** [==] on the argument tuples (hash and equality of the key). *)
Variable key_eq : K -> K -> bool.

Variable maxsize : nat.

(** The decorated function, [__wrapped__]. *)
Variable user_function : K -> outcome V.

(** The state of the memoizing wrapper: the stored results, oldest first
    (the order of the wrapper's linked list), and the two counters that
    [cache_info()] reports. *)
Record lru_cache : Type := Lru {
  cache : list (K * V);
  hits : nat;
  misses : nat
}.

Definition cache_clear : lru_cache :=
  {| cache := []; hits := 0%nat; misses := 0%nat |}.

(** Lookup of a key: the stored entry and the entries that remain when
    it is unlinked. *)
Fixpoint cache_get (key : K) (l : list (K * V))
  : option ((K * V) * list (K * V)) :=
  match l with
  | [] => None
  | link :: l' =>
      if key_eq key (fst link) then Some (link, l')
      else match cache_get key l' with
           | Some (found, rest) => Some (found, link :: rest)
           | None => None
           end
  end.

(** One call of the wrapper.  The key is looked up first.  On a hit the
    entry moves to the most recent end and the stored result is returned
    without calling the function.  On a miss the function is called; an
    exception passes through and stores nothing; a result is stored,
    in place of the oldest entry when the cache is full. *)
Definition lru_cache_wrapper (key : K) (self : lru_cache)
  : outcome V * lru_cache :=
  match cache_get key (cache self) with
  | Some (link, rest) =>
      (Return (snd link),
       {| cache := rest ++ [link];
          hits := S (hits self);
          misses := misses self |})
  | None =>
      let self1 := {| cache := cache self;
                      hits := hits self;
                      misses := S (misses self) |} in
      match user_function key with
      | Raise e => (Raise e, self1)
      | Return result =>
          (Return result,
           {| cache :=
                (if (List.length (cache self1) <? maxsize)%nat
                 then cache self1
                 else tl (cache self1)) ++ [(key, result)];
              hits := hits self1;
              misses := misses self1 |})
      end
  end.

(** Every stored result is what the function returns on the stored key. *)
Definition sound (self : lru_cache) : Prop :=
  Forall (fun link => user_function (fst link) = Return (snd link))
         (cache self).

(** A call that raises stores nothing; only the miss is counted. *)
Definition count_miss (self : lru_cache) : lru_cache :=
  {| cache := cache self; hits := hits self; misses := S (misses self) |}.

End LruCache.

Arguments cache {K V} _.
Arguments hits {K V} _.
Arguments misses {K V} _.
Arguments cache_clear {K V}.
Arguments sound {K V} user_function self.
Arguments count_miss {K V} self.
Arguments cache_get {K V} key_eq key l.
Arguments lru_cache_wrapper {K V} key_eq maxsize user_function key self.

(** ** cluster_functions.py *)

(** The arguments of one call: [(lat, lon, precision)]. *)
Definition args : Type := float * float * Z.

(** Equality of two argument tuples as the cache sees it: [==] on each
    component ([0.0 == -0.0]).  A NaN equals no float; the range checks
    reject it, so no key with a NaN is ever stored and its lookup
    misses. *)
Definition args_eq (a b : args) : bool :=
  let '(lat1, lon1, p1) := a in
  let '(lat2, lon2, p2) := b in
  Py.eq lat1 lat2 && Py.eq lon1 lon2 && (p1 =? p2).

(** The function under the decorator. *)
Definition _calculate_single_geohash__wrapped (a : args) : outcome string :=
  let '(lat, lon, precision) := a in
  if negb (le (of_int (-90)) lat && le lat (of_int 90)) then
    Raise (ValueError
      [Lit "Latitude must be between -90 and 90, got "; Fmt (Float lat)])
  else if negb (le (of_int (-180)) lon && le lon (of_int 180)) then
    Raise (ValueError
      [Lit "Longitude must be between -180 and 180, got "; Fmt (Float lon)])
  else if negb ((1 <=? precision) && (precision <=? 12)) then
    Raise (ValueError
      [Lit "Precision must be between 1 and 12, got "; Fmt (Int precision)])
  else
    Return (geohash.encode lat lon precision).

Definition geohash_cache : Type := lru_cache args string.

Definition maxsize : nat := 10000.

(** [@lru_cache(maxsize=10000)]. *)
Definition _calculate_single_geohash
  (lat lon : float) (precision : Z) (self : geohash_cache)
  : outcome string * geohash_cache :=
  lru_cache_wrapper args_eq maxsize _calculate_single_geohash__wrapped
    (lat, lon, precision) self.

(** The list comprehension over [zip(lats, lons)]: the calls run left to
    right on the same cache, and the first exception ends the loop with
    the cache as the calls before it left it. *)
Fixpoint comprehension (pairs : list (float * float)) (precision : Z)
  (self : geohash_cache) : outcome (list string) * geohash_cache :=
  match pairs with
  | [] => (Return [], self)
  | (lat, lon) :: pairs' =>
      match _calculate_single_geohash lat lon precision self with
      | (Raise e, self') => (Raise e, self')
      | (Return h, self') =>
          match comprehension pairs' precision self' with
          | (Raise e, self'') => (Raise e, self'')
          | (Return hs, self'') => (Return (h :: hs), self'')
          end
      end
  end.

Definition calculate_geohashes
  (lats lons : list float) (precision : Z) (self : geohash_cache)
  : outcome (list string) * geohash_cache :=
  if negb (List.length lats =? List.length lons)%nat then
    (Raise (ValueError
       [Lit "Latitude and longitude lists must have same length, got ";
        Fmt (Int (Z.of_nat (List.length lats))); Lit " and ";
        Fmt (Int (Z.of_nat (List.length lons)))]),
     self)
  else
    match lats with
    | [] => (Return [], self)
    | _ => comprehension (combine lats lons) precision self
    end.

(** ** Sample data of the tests *)

Module test_data.
(** 37.7749 = 0x1.2e32fec56d5d0p+5, -122.4194 = -0x1.e9ad77318fc50p+6. *)
Definition sf_lat : float := S754_finite false 5316344548873680 (-47).
Definition sf_lon : float := S754_finite true 8614499440983120 (-46).
(** 40.7128 = 0x1.45b3d07c84b5ep+5, -74.0060 = -0x1.280624dd2f1aap+6. *)
Definition ny_lat : float := S754_finite false 5729817215912798 (-47).
Definition ny_lon : float := S754_finite true 5207709281612202 (-46).
(** 90.0, -90.0, 180.0, -180.0 and 0.0, 91.0, 181.0 of the test fixtures. *)
Definition north_pole : float := of_int 90.
Definition south_pole : float := of_int (-90).
Definition antimeridian_east : float := of_int 180.
Definition antimeridian_west : float := of_int (-180).
Definition zero : float := S754_zero false.
Definition lat_91 : float := of_int 91.
Definition lon_181 : float := of_int 181.
(** The cache after a first batch with the two cities. *)
Definition warm_cache : geohash_cache :=
  snd (calculate_geohashes [sf_lat; ny_lat] [sf_lon; ny_lon] 5 cache_clear).
End test_data.

(** ** Notions used by the statements *)

(** The ranges of the three arguments. *)
Definition latitude_in_range (lat : float) : bool :=
  le (of_int (-90)) lat && le lat (of_int 90).

Definition longitude_in_range (lon : float) : bool :=
  le (of_int (-180)) lon && le lon (of_int 180).

Definition precision_in_range (precision : Z) : Prop :=
  1 <= precision <= 12.

(** A triple fails validation when one of its values is out of range. *)
Definition valid_triple (lat lon : float) (precision : Z) : bool :=
  latitude_in_range lat && longitude_in_range lon &&
  (1 <=? precision) && (precision <=? 12).

(** The three messages of the range checks and the one of the length
    check. *)
Definition latitude_message (lat : float) : exn :=
  ValueError
    [Lit "Latitude must be between -90 and 90, got "; Fmt (Float lat)].

Definition longitude_message (lon : float) : exn :=
  ValueError
    [Lit "Longitude must be between -180 and 180, got "; Fmt (Float lon)].

Definition precision_message (precision : Z) : exn :=
  ValueError
    [Lit "Precision must be between 1 and 12, got "; Fmt (Int precision)].

Definition length_message (lats lons : list float) : exn :=
  ValueError
    [Lit "Latitude and longitude lists must have same length, got ";
     Fmt (Int (Z.of_nat (List.length lats))); Lit " and ";
     Fmt (Int (Z.of_nat (List.length lons)))].

(** The invariant of the cache of [_calculate_single_geohash], as a
    check that can be run: every stored string is the one the function
    under the decorator returns on the stored arguments. *)
Definition sound_cache (self : geohash_cache) : bool :=
  forallb
    (fun link =>
       match _calculate_single_geohash__wrapped (fst link) with
       | Return h => String.eqb h (snd link)
       | Raise _ => false
       end)
    (cache self).

(** The caches a process can hold: the empty one when the module is
    imported, and the one any call of either function leaves, whether
    it returned or raised. *)
Inductive reachable : geohash_cache -> Prop :=
| reachable_clear : reachable cache_clear
| reachable_single (lat lon : float) (precision : Z) (self : geohash_cache) :
    reachable self ->
    reachable (snd (_calculate_single_geohash lat lon precision self))
| reachable_batch (lats lons : list float) (precision : Z)
    (self : geohash_cache) :
    reachable self ->
    reachable (snd (calculate_geohashes lats lons precision self)).

(** The batch operation without the memoization: every call goes to the
    function under the decorator. *)
Fixpoint comprehension__wrapped (pairs : list (float * float)) (precision : Z)
  : outcome (list string) :=
  match pairs with
  | [] => Return []
  | (lat, lon) :: pairs' =>
      match _calculate_single_geohash__wrapped (lat, lon, precision) with
      | Raise e => Raise e
      | Return h =>
          match comprehension__wrapped pairs' precision with
          | Raise e => Raise e
          | Return hs => Return (h :: hs)
          end
      end
  end.

Definition calculate_geohashes__wrapped
  (lats lons : list float) (precision : Z) : outcome (list string) :=
  if negb (List.length lats =? List.length lons)%nat then
    Raise (length_message lats lons)
  else
    match lats with
    | [] => Return []
    | _ => comprehension__wrapped (combine lats lons) precision
    end.

(** The number of lookups the cache has answered so far, as
    [cache_info()] reports them. *)
Definition lookups (self : geohash_cache) : nat :=
  (hits self + misses self)%nat.

(** All characters of a string belong to the geohash alphabet. *)
Definition in_alphabet (h : string) : Prop :=
  Forall (fun ch => In ch (list_ascii_of_string geohash._GeohashBase32))
         (list_ascii_of_string h).

(** The geohash of a pair at a precision, and the check of a pair, as
    functions on the elements of [zip(lats, lons)]. *)
Definition encode_pair (precision : Z) (ll : float * float) : string :=
  geohash.encode (fst ll) (snd ll) precision.

Definition valid_pair (precision : Z) (ll : float * float) : bool :=
  valid_triple (fst ll) (snd ll) precision.

Section LruNotions.

Variables K V : Type.
Variable key_eq : K -> K -> bool.

(** A key has an entry in the stored results. *)
Definition cached (key : K) (l : list (K * V)) : bool :=
  existsb (fun link => key_eq key (fst link)) l.

(** No two stored entries have equal keys. *)
Definition distinct_keys (l : list (K * V)) : Prop :=
  ForallOrdPairs (fun a b => key_eq (fst a) (fst b) = false) l.

(** The keys of [keys] have entries among the [j] most recent ones of
    the stored results [l]. *)
Definition recent (j : nat) (keys : list K) (l : list (K * V)) : Prop :=
  exists l1 l2,
    l = l1 ++ l2 /\ (List.length l2 <= j)%nat /\
    Forall (fun k => cached k l2 = true) keys.

End LruNotions.

Arguments cached {K V} key_eq key l.
Arguments distinct_keys {K V} key_eq l.
Arguments recent {K V} key_eq j keys l.

(** ** tests/test_utils.py *)

Module test_utils.

(** The message of a failed [assert]: literal text, and the ints and
    strings its f-string interpolates. *)
Inductive part : Type :=
| Text (s : string)
| Num (z : Z)
| Str (s : string).

(** What an assertion helper does: it returns [None] or raises
    [AssertionError]. *)
Inductive checked : Type :=
| Pass
| AssertionError (msg : list part).

(** [str.isalnum] and [str.lower] on characters below 128. *)
Definition isalnum_char (c : ascii) : bool :=
  let n := nat_of_ascii c in
  ((48 <=? n) && (n <=? 57) || (65 <=? n) && (n <=? 90)
   || (97 <=? n) && (n <=? 122))%nat.

Definition isalnum (s : string) : bool :=
  match s with
  | EmptyString => false
  | _ => forallb isalnum_char (list_ascii_of_string s)
  end.

Definition lower_char (c : ascii) : ascii :=
  let n := nat_of_ascii c in
  if ((65 <=? n) && (n <=? 90))%nat then ascii_of_nat (n + 32) else c.

Definition lower (s : string) : list ascii :=
  map lower_char (list_ascii_of_string s).

(** [c in "ilo"] for a character [c]. *)
Definition in_ilo (c : ascii) : bool :=
  existsb (Ascii.eqb c) (list_ascii_of_string "ilo").

(** The argument is a [str], so the [isinstance] assertion passes; the
    three others follow in the order of the source. *)
Definition assert_valid_geohash (geohash : string) (precision : Z)
  : checked :=
  if negb (Z.of_nat (String.length geohash) =? precision) then
    AssertionError
      [Text "Geohash length should be "; Num precision; Text ", got ";
       Num (Z.of_nat (String.length geohash))]
  else if negb (isalnum geohash) then
    AssertionError [Text "Geohash should be alphanumeric, got "; Str geohash]
  else if existsb in_ilo (lower geohash) then
    AssertionError
      [Text "Geohash should not contain ambiguous characters i, l, o, got ";
       Str geohash]
  else Pass.

Definition assert_coordinate_lists_match
  (lats lons : list float) (hashes : list string) : checked :=
  if negb (List.length lats =? List.length lons)%nat then
    AssertionError
      [Text "Latitude and longitude lists should have same length"]
  else if negb (List.length hashes =? List.length lats)%nat then
    AssertionError
      [Text "Hashes list should have same length as coordinate lists"]
  else Pass.

(** The characters [assert_valid_geohash] lets through: digits and
    letters of either case, except i, l and o. *)
Definition accepted_chars : string :=
  "0123456789abcdefghjkmnpqrstuvwxyzABCDEFGHJKMNPQRSTUVWXYZ".

Definition below_128 (s : string) : bool :=
  forallb (fun c => (nat_of_ascii c <? 128)%nat) (list_ascii_of_string s).

End test_utils.

(** ** Facts on float comparison *)

Lemma compare_cont_Eq_inv (m1 m2 : positive) :
  Pos.compare_cont Eq m1 m2 = Eq -> m1 = m2.
Proof. exact (Pos.compare_eq m1 m2). Qed.

(** [x == y] holds only between identical floats and between zeros. *)
Lemma eq_true_inv (x y : float) :
  Py.eq x y = true ->
  x = y \/ (exists s s', x = S754_zero s /\ y = S754_zero s').
Proof.
  unfold Py.eq, SFeqb.
  destruct x as [s1|s1| |s1 m1 e1], y as [s2|s2| |s2 m2 e2]; simpl;
    try discriminate;
    try (destruct s1; discriminate);
    try (destruct s2; discriminate).
  - right. eauto.
  - destruct s1, s2; try discriminate; auto.
  - destruct s1, s2; try discriminate;
      destruct (Z.compare e1 e2) eqn:He; try discriminate;
      apply Z.compare_eq in He; subst e2;
      destruct (Pos.compare_cont Eq m1 m2) eqn:Hm; try discriminate;
      apply compare_cont_Eq_inv in Hm; subst m2; auto.
Qed.

(** The sign of a zero is invisible to comparisons. *)
Lemma compare_zero_l (s s' : bool) (y : float) :
  SFcompare (S754_zero s) y = SFcompare (S754_zero s') y.
Proof. destruct y; reflexivity. Qed.

Lemma compare_zero_r (s s' : bool) (x : float) :
  SFcompare x (S754_zero s) = SFcompare x (S754_zero s').
Proof. destruct x; reflexivity. Qed.

Lemma eq_compare_l (x y z : float) :
  Py.eq x y = true -> SFcompare x z = SFcompare y z.
Proof.
  intros H. destruct (eq_true_inv x y H) as [->|(s & s' & -> & ->)].
  - reflexivity.
  - apply compare_zero_l.
Qed.

Lemma eq_compare_r (x y z : float) :
  Py.eq x y = true -> SFcompare z x = SFcompare z y.
Proof.
  intros H. destruct (eq_true_inv x y H) as [->|(s & s' & -> & ->)].
  - reflexivity.
  - apply compare_zero_r.
Qed.

Lemma eq_lt_l (x y z : float) : Py.eq x y = true -> lt x z = lt y z.
Proof. intros H. unfold lt, SFltb. now rewrite (eq_compare_l x y z H). Qed.

Lemma eq_le_l (x y z : float) : Py.eq x y = true -> le x z = le y z.
Proof. intros H. unfold le, SFleb. now rewrite (eq_compare_l x y z H). Qed.

Lemma eq_le_r (x y z : float) : Py.eq x y = true -> le z x = le z y.
Proof. intros H. unfold le, SFleb. now rewrite (eq_compare_r x y z H). Qed.

(** ** Facts on the encoder *)

Module geohash_facts.
Import geohash.

Lemma bisect_eq e lat lon lat' lon' c :
  Py.eq lat lat' = true -> Py.eq lon lon' = true ->
  bisect e lat lon c = bisect e lat' lon' c.
Proof.
  intros Hlat Hlon. unfold bisect.
  destruct e.
  - now rewrite (eq_lt_l lon lon' _ Hlon).
  - now rewrite (eq_lt_l lat lat' _ Hlat).
Qed.

Lemma bits_eq b : forall e lat lon lat' lon' c i,
  Py.eq lat lat' = true -> Py.eq lon lon' = true ->
  bits b e lat lon c i = bits b e lat' lon' c i.
Proof.
  induction b as [|b IH]; intros e lat lon lat' lon' c i Hlat Hlon; simpl.
  - reflexivity.
  - rewrite (bisect_eq e lat lon lat' lon' c Hlat Hlon).
    destruct (bisect e lat' lon' c) as [bit c'].
    now apply IH.
Qed.

Lemma chars_eq p : forall e lat lon lat' lon' c,
  Py.eq lat lat' = true -> Py.eq lon lon' = true ->
  chars p e lat lon c = chars p e lat' lon' c.
Proof.
  induction p as [|p IH]; intros e lat lon lat' lon' c Hlat Hlon.
  - reflexivity.
  - cbn [chars]. rewrite (bits_eq 5 e lat lon lat' lon' c 0%nat Hlat Hlon).
    destruct (bits 5 e lat' lon' c 0%nat) as [[i e'] c'].
    f_equal. now apply IH.
Qed.

(** Equal arguments give the same geohash. *)
Lemma encode_eq lat lon lat' lon' precision :
  Py.eq lat lat' = true -> Py.eq lon lon' = true ->
  encode lat lon precision = encode lat' lon' precision.
Proof.
  intros Hlat Hlon. unfold encode. f_equal. now apply chars_eq.
Qed.

(** The index built from [b] bits stays below [2^b * (i + 1)]. *)
Lemma bits_bound b : forall e lat lon c i,
  (fst (fst (bits b e lat lon c i)) < 2 ^ b * (i + 1))%nat.
Proof.
  induction b as [|b IH]; intros e lat lon c i.
  - simpl. lia.
  - cbn [bits]. destruct (bisect e lat lon c) as [bit c'].
    specialize (IH (negb e) lat lon c' (i + i + (if bit then 1 else 0))%nat).
    rewrite Nat.pow_succ_r'. destruct bit; nia.
Qed.

Lemma length_chars p : forall e lat lon c,
  List.length (chars p e lat lon c) = p.
Proof.
  induction p as [|p IH]; intros e lat lon c.
  - reflexivity.
  - cbn [chars]. destruct (bits 5 e lat lon c 0%nat) as [[i e'] c'].
    simpl. now rewrite IH.
Qed.

Lemma chars_alphabet p : forall e lat lon c,
  Forall (fun ch => In ch (list_ascii_of_string _GeohashBase32))
         (chars p e lat lon c).
Proof.
  induction p as [|p IH]; intros e lat lon c.
  - constructor.
  - cbn [chars]. pose proof (bits_bound 5 e lat lon c 0%nat) as Hi.
    destruct (bits 5 e lat lon c 0%nat) as [[i e'] c']. cbn [fst] in Hi.
    constructor; [|apply IH].
    apply nth_In.
    change (List.length (list_ascii_of_string _GeohashBase32)) with 32%nat.
    change (2 ^ 5 * (0 + 1))%nat with 32%nat in Hi. exact Hi.
Qed.

(** The first [p] characters do not depend on how many follow. *)
Lemma chars_app p q : forall e lat lon c,
  exists rest,
    chars (p + q) e lat lon c = chars p e lat lon c ++ rest /\
    List.length rest = q.
Proof.
  induction p as [|p IH]; intros e lat lon c.
  - exists (chars q e lat lon c). split; [reflexivity|apply length_chars].
  - cbn [chars Nat.add]. destruct (bits 5 e lat lon c 0%nat) as [[i e'] c'].
    destruct (IH e' lat lon c') as (rest & Heq & Hlen).
    exists rest. split; [|exact Hlen]. rewrite Heq. reflexivity.
Qed.

Lemma length_string_of_list_ascii (l : list ascii) :
  String.length (string_of_list_ascii l) = List.length l.
Proof. induction l; simpl; congruence. Qed.

Lemma string_of_list_ascii_app (l1 l2 : list ascii) :
  string_of_list_ascii (l1 ++ l2) =
  (string_of_list_ascii l1 ++ string_of_list_ascii l2)%string.
Proof. induction l1; simpl; congruence. Qed.

Lemma encode_length lat lon precision :
  String.length (encode lat lon precision) = Z.to_nat precision.
Proof.
  unfold encode. now rewrite length_string_of_list_ascii, length_chars.
Qed.

Lemma encode_alphabet lat lon precision :
  Forall (fun ch => In ch (list_ascii_of_string _GeohashBase32))
         (list_ascii_of_string (encode lat lon precision)).
Proof.
  unfold encode. rewrite list_ascii_of_string_of_list_ascii.
  apply chars_alphabet.
Qed.

End geohash_facts.

(** ** Facts on the memoizing wrapper *)

Section LruFacts.

Variables K V : Type.
Variable key_eq : K -> K -> bool.
Variable maxsize : nat.
Variable user_function : K -> outcome V.

(** Keys that are equal for the cache are equal for the function. *)
Hypothesis key_eq_compat :
  forall a b, key_eq a b = true -> user_function a = user_function b.

Lemma sound_clear : sound user_function cache_clear.
Proof. constructor. Qed.

Lemma cache_get_Some key l link rest :
  cache_get key_eq key l = Some (link, rest) ->
  key_eq key (fst link) = true /\
  forall P : K * V -> Prop, Forall P l -> Forall P (rest ++ [link]).
Proof.
  revert link rest.
  induction l as [|x l IH]; intros link rest H; simpl in H.
  - discriminate.
  - destruct (key_eq key (fst x)) eqn:Hx.
    + injection H as <- <-. split; [exact Hx|].
      intros P HP. inversion HP; subst.
      apply Forall_app. split; auto.
    + destruct (cache_get key_eq key l) as [[found rest']|] eqn:Hl;
        [|discriminate].
      injection H as <- <-.
      destruct (IH found rest' eq_refl) as [Hk Hall].
      split; [exact Hk|].
      intros P HP. inversion HP; subst.
      simpl. constructor; auto.
Qed.

Lemma cache_get_None key (l : list (K * V)) :
  cache_get key_eq key l = None ->
  Forall (fun link => key_eq key (fst link) = false) l.
Proof.
  induction l as [|x l IH]; simpl; intros H.
  - constructor.
  - destruct (key_eq key (fst x)) eqn:Hx; [discriminate|].
    destruct (cache_get key_eq key l) as [[found rest']|]; [discriminate|].
    constructor; auto.
Qed.

(** On a sound cache a hit returns what the function would return. *)
Lemma hit_result key self link rest :
  sound user_function self ->
  cache_get key_eq key (cache self) = Some (link, rest) ->
  user_function key = Return (snd link).
Proof.
  intros Hs Hget.
  destruct (cache_get_Some key (cache self) link rest Hget) as [Hk Hall].
  specialize (Hall _ Hs).
  apply Forall_app in Hall. destruct Hall as [_ Hlink].
  inversion Hlink; subst.
  rewrite (key_eq_compat key (fst link) Hk). assumption.
Qed.

(** The wrapper returns or raises exactly what the function does. *)
Lemma wrapper_result key self :
  sound user_function self ->
  fst (lru_cache_wrapper key_eq maxsize user_function key self)
  = user_function key.
Proof.
  intros Hs. unfold lru_cache_wrapper.
  destruct (cache_get key_eq key (cache self)) as [[link rest]|] eqn:Hget.
  - simpl. symmetry. eapply hit_result; eauto.
  - destruct (user_function key); reflexivity.
Qed.

(** Soundness is kept by every call. *)
Lemma wrapper_sound key self :
  sound user_function self ->
  sound user_function
    (snd (lru_cache_wrapper key_eq maxsize user_function key self)).
Proof.
  intros Hs. unfold lru_cache_wrapper.
  destruct (cache_get key_eq key (cache self)) as [[link rest]|] eqn:Hget.
  - simpl. unfold sound. simpl.
    destruct (cache_get_Some key (cache self) link rest Hget) as [_ Hall].
    apply Hall. exact Hs.
  - destruct (user_function key) as [result|e] eqn:Hf; simpl.
    + unfold sound. simpl. apply Forall_app. split.
      * destruct (List.length (cache self) <? maxsize)%nat; [exact Hs|].
        unfold sound in Hs. destruct (cache self); simpl; [constructor|].
        now inversion Hs.
      * constructor; [exact Hf|constructor].
    + exact Hs.
Qed.

(** A call whose function raises: the lookup misses, the exception is
    passed on, the entries stay as they are and one miss is counted. *)
Lemma wrapper_raise key self e :
  sound user_function self -> user_function key = Raise e ->
  lru_cache_wrapper key_eq maxsize user_function key self
  = (Raise e, count_miss self).
Proof.
  intros Hs Hf. unfold lru_cache_wrapper.
  destruct (cache_get key_eq key (cache self)) as [[link rest]|] eqn:Hget.
  - rewrite (hit_result key self link rest Hs Hget) in Hf. discriminate.
  - rewrite Hf. reflexivity.
Qed.

(** Every call performs one lookup, counted as a hit or as a miss. *)
Lemma wrapper_lookups key self :
  (hits (snd (lru_cache_wrapper key_eq maxsize user_function key self))
   + misses (snd (lru_cache_wrapper key_eq maxsize user_function key self))
   = S (hits self + misses self))%nat.
Proof.
  unfold lru_cache_wrapper.
  destruct (cache_get key_eq key (cache self)) as [[link rest]|].
  - simpl. lia.
  - destruct (user_function key); simpl; lia.
Qed.

(** The result, the entries and the hit count after a call do not depend
    on the miss count before it. *)
Lemma wrapper_count_miss key self :
  fst (lru_cache_wrapper key_eq maxsize user_function key (count_miss self))
  = fst (lru_cache_wrapper key_eq maxsize user_function key self) /\
  snd (lru_cache_wrapper key_eq maxsize user_function key (count_miss self))
  = count_miss (snd (lru_cache_wrapper key_eq maxsize user_function key self)).
Proof.
  unfold lru_cache_wrapper, count_miss. simpl.
  destruct (cache_get key_eq key (cache self)) as [[link rest]|].
  - split; reflexivity.
  - destruct (user_function key); split; reflexivity.
Qed.

(** A hit relinks an entry: the number of entries is unchanged. *)
Lemma cache_get_length key (l : list (K * V)) : forall link rest,
  cache_get key_eq key l = Some (link, rest) ->
  List.length (rest ++ [link]) = List.length l.
Proof.
  induction l as [|x l IH]; simpl; intros link rest H; [discriminate|].
  destruct (key_eq key (fst x)).
  - injection H as <- <-. rewrite length_app. simpl. lia.
  - destruct (cache_get key_eq key l) as [[f r]|]; [|discriminate].
    injection H as <- <-. simpl. f_equal. now apply IH.
Qed.

(** The cache never grows beyond [maxsize]. *)
Lemma wrapper_size key self :
  (0 < maxsize)%nat ->
  (List.length (cache self) <= maxsize)%nat ->
  (List.length
     (cache (snd (lru_cache_wrapper key_eq maxsize user_function key self)))
   <= maxsize)%nat.
Proof.
  intros Hpos Hle. unfold lru_cache_wrapper.
  destruct (cache_get key_eq key (cache self)) as [[link rest]|] eqn:Hget.
  - simpl. rewrite (cache_get_length key (cache self) link rest Hget).
    exact Hle.
  - destruct (user_function key); simpl; [|exact Hle].
    rewrite length_app. simpl.
    destruct (List.length (cache self) <? maxsize)%nat eqn:Hlt.
    + apply Nat.ltb_lt in Hlt. lia.
    + destruct (cache self); simpl in *; lia.
Qed.

End LruFacts.

(** ** Facts on [_calculate_single_geohash] *)

(** Arguments that are equal for the cache get the same outcome, message
    included: a zero of either sign passes both range checks. *)
Lemma wrapped_args_eq (a b : args) :
  args_eq a b = true ->
  _calculate_single_geohash__wrapped a = _calculate_single_geohash__wrapped b.
Proof.
  destruct a as [[lat1 lon1] p1], b as [[lat2 lon2] p2].
  unfold args_eq. intros H.
  apply andb_prop in H. destruct H as [H Hp].
  apply andb_prop in H. destruct H as [Hlat Hlon].
  apply Z.eqb_eq in Hp. subst p2.
  unfold _calculate_single_geohash__wrapped.
  rewrite (geohash_facts.encode_eq lat1 lon1 lat2 lon2 p1 Hlat Hlon).
  rewrite (eq_le_r lat1 lat2 _ Hlat), (eq_le_l lat1 lat2 _ Hlat).
  rewrite (eq_le_r lon1 lon2 _ Hlon), (eq_le_l lon1 lon2 _ Hlon).
  destruct (eq_true_inv lat1 lat2 Hlat) as [->|(s1 & s2 & -> & ->)];
    destruct (eq_true_inv lon1 lon2 Hlon) as [->|(t1 & t2 & -> & ->)];
    reflexivity.
Qed.

Lemma sound_cache_sound (self : geohash_cache) :
  sound_cache self = true <-> sound _calculate_single_geohash__wrapped self.
Proof.
  unfold sound_cache, sound. rewrite forallb_forall, Forall_forall.
  split; intros H link Hin; specialize (H link Hin).
  - destruct (_calculate_single_geohash__wrapped (fst link)); [|discriminate].
    apply String.eqb_eq in H. now subst.
  - rewrite H. apply String.eqb_refl.
Qed.

(** The cache is sound when the process starts and stays sound. *)
Lemma sound_cache_clear : sound_cache cache_clear = true.
Proof. reflexivity. Qed.

Lemma single_sound lat lon precision self :
  sound_cache self = true ->
  sound_cache (snd (_calculate_single_geohash lat lon precision self)) = true.
Proof.
  rewrite !sound_cache_sound. apply wrapper_sound.
Qed.

Lemma single_result lat lon precision self :
  sound_cache self = true ->
  fst (_calculate_single_geohash lat lon precision self)
  = _calculate_single_geohash__wrapped (lat, lon, precision).
Proof.
  rewrite sound_cache_sound. intros Hs.
  apply (wrapper_result _ _ args_eq maxsize _ wrapped_args_eq _ _ Hs).
Qed.

Lemma single_raise lat lon precision self e :
  sound_cache self = true ->
  _calculate_single_geohash__wrapped (lat, lon, precision) = Raise e ->
  _calculate_single_geohash lat lon precision self
  = (Raise e, count_miss self).
Proof.
  rewrite sound_cache_sound. intros Hs Hf.
  apply (wrapper_raise _ _ args_eq maxsize _ wrapped_args_eq _ _ e Hs Hf).
Qed.

Lemma single_count_miss lat lon precision self :
  _calculate_single_geohash lat lon precision (count_miss self)
  = (fst (_calculate_single_geohash lat lon precision self),
     count_miss (snd (_calculate_single_geohash lat lon precision self))).
Proof.
  unfold _calculate_single_geohash.
  destruct (wrapper_count_miss _ _ args_eq maxsize
              _calculate_single_geohash__wrapped (lat, lon, precision) self)
    as [H1 H2].
  rewrite (surjective_pairing (lru_cache_wrapper _ _ _ _ (count_miss self))).
  now rewrite H1, H2.
Qed.

(** What the function under the decorator does on a valid and on an
    invalid triple. *)
Lemma wrapped_valid lat lon precision :
  valid_triple lat lon precision = true ->
  _calculate_single_geohash__wrapped (lat, lon, precision)
  = Return (geohash.encode lat lon precision).
Proof.
  unfold valid_triple, latitude_in_range, longitude_in_range. intros H.
  apply andb_prop in H. destruct H as [H H12].
  apply andb_prop in H. destruct H as [H H1].
  apply andb_prop in H. destruct H as [Hlat Hlon].
  unfold _calculate_single_geohash__wrapped.
  now rewrite Hlat, Hlon, H1, H12.
Qed.

Lemma wrapped_invalid lat lon precision :
  valid_triple lat lon precision = false ->
  exists e, _calculate_single_geohash__wrapped (lat, lon, precision) = Raise e.
Proof.
  unfold valid_triple, latitude_in_range, longitude_in_range,
    _calculate_single_geohash__wrapped.
  destruct (le (of_int (-90)) lat && le lat (of_int 90));
    cbn [negb andb]; [|eauto].
  destruct (le (of_int (-180)) lon && le lon (of_int 180));
    cbn [negb andb]; [|eauto].
  intros H. rewrite H. cbn [negb]. eauto.
Qed.

(** ** Facts on [calculate_geohashes] *)

(** With a sound cache the comprehension computes what the calls without
    memoization compute, and leaves a sound cache. *)
Lemma comprehension_result pairs precision : forall self,
  sound_cache self = true ->
  fst (comprehension pairs precision self)
  = comprehension__wrapped pairs precision /\
  sound_cache (snd (comprehension pairs precision self)) = true.
Proof.
  induction pairs as [|[lat lon] pairs IH]; intros self Hs; simpl.
  - split; [reflexivity|exact Hs].
  - pose proof (single_result lat lon precision self Hs) as Hr.
    pose proof (single_sound lat lon precision self Hs) as Hs'.
    destruct (_calculate_single_geohash lat lon precision self)
      as [[h|e] self']; simpl in Hr, Hs'; rewrite <- Hr.
    + destruct (IH self' Hs') as [IHr IHs].
      destruct (comprehension pairs precision self') as [[hs|e] self''];
        simpl in IHr, IHs; rewrite <- IHr; split; auto.
    + split; auto.
Qed.

Lemma calculate_geohashes_result lats lons precision self :
  sound_cache self = true ->
  fst (calculate_geohashes lats lons precision self)
  = calculate_geohashes__wrapped lats lons precision /\
  sound_cache (snd (calculate_geohashes lats lons precision self)) = true.
Proof.
  intros Hs. unfold calculate_geohashes, calculate_geohashes__wrapped.
  destruct (negb (List.length lats =? List.length lons)%nat).
  - split; [reflexivity|exact Hs].
  - destruct lats as [|lat lats].
    + split; [reflexivity|exact Hs].
    + apply comprehension_result. exact Hs.
Qed.

(** Every cache a process can hold is sound. *)
Lemma reachable_sound (self : geohash_cache) :
  reachable self -> sound_cache self = true.
Proof.
  induction 1 as [|lat lon precision self _ IH|lats lons precision self _ IH].
  - reflexivity.
  - now apply single_sound.
  - now apply calculate_geohashes_result.
Qed.

(** The miss count does not influence a batch. *)
Lemma comprehension_count_miss pairs precision : forall self,
  comprehension pairs precision (count_miss self)
  = (fst (comprehension pairs precision self),
     count_miss (snd (comprehension pairs precision self))).
Proof.
  induction pairs as [|[lat lon] pairs IH]; intros self; simpl.
  - reflexivity.
  - rewrite single_count_miss.
    destruct (_calculate_single_geohash lat lon precision self)
      as [[h|e] self']; simpl; [|reflexivity].
    rewrite IH.
    destruct (comprehension pairs precision self') as [[hs|e] self''];
      reflexivity.
Qed.

Lemma calculate_geohashes_count_miss lats lons precision self :
  calculate_geohashes lats lons precision (count_miss self)
  = (fst (calculate_geohashes lats lons precision self),
     count_miss (snd (calculate_geohashes lats lons precision self))).
Proof.
  unfold calculate_geohashes.
  destruct (negb (List.length lats =? List.length lons)%nat); [reflexivity|].
  destruct lats; [reflexivity|]. apply comprehension_count_miss.
Qed.

(** A batch whose first invalid pair comes after the pairs [pre]: the
    calls for [pre] run, the next call raises, and the cache is the one
    [pre] alone leaves, with the failing lookup counted. *)
Lemma comprehension_abort pre lat lon post precision e : forall self,
  sound_cache self = true ->
  forallb (fun ll => valid_triple (fst ll) (snd ll) precision) pre = true ->
  _calculate_single_geohash__wrapped (lat, lon, precision) = Raise e ->
  (exists hs, fst (comprehension pre precision self) = Return hs) /\
  comprehension (pre ++ (lat, lon) :: post) precision self
  = (Raise e, count_miss (snd (comprehension pre precision self))).
Proof.
  induction pre as [|[lat1 lon1] pre IH]; intros self Hs Hpre Hbad.
  - split; [exists []; reflexivity|].
    simpl. now rewrite (single_raise lat lon precision self e Hs Hbad).
  - simpl in Hpre. apply andb_prop in Hpre. destruct Hpre as [Hv Hpre].
    simpl in Hv. simpl.
    pose proof (single_result lat1 lon1 precision self Hs) as Hr.
    pose proof (single_sound lat1 lon1 precision self Hs) as Hs'.
    rewrite (wrapped_valid lat1 lon1 precision Hv) in Hr.
    destruct (_calculate_single_geohash lat1 lon1 precision self)
      as [o self']; simpl in Hr, Hs'; subst o.
    destruct (IH self' Hs' Hpre Hbad) as [[hs Hhs] Hab].
    rewrite Hab.
    destruct (comprehension pre precision self') as [o self''].
    simpl in Hhs. subst o. split; [eexists; reflexivity|reflexivity].
Qed.

Lemma combine_app_cons (lats1 lats2 lons1 lons2 : list float) lat lon :
  List.length lats1 = List.length lons1 ->
  combine (lats1 ++ lat :: lats2) (lons1 ++ lon :: lons2)
  = combine lats1 lons1 ++ (lat, lon) :: combine lats2 lons2.
Proof.
  revert lons1. induction lats1 as [|x lats1 IH]; intros [|y lons1] H;
    simpl in *; try discriminate; try reflexivity.
  f_equal. apply IH. congruence.
Qed.

Lemma valid_triple_intro lat lon precision :
  latitude_in_range lat = true -> longitude_in_range lon = true ->
  precision_in_range precision ->
  valid_triple lat lon precision = true.
Proof.
  unfold valid_triple, precision_in_range. intros -> -> [H1 H12].
  apply Z.leb_le in H1. apply Z.leb_le in H12. now rewrite H1, H12.
Qed.

Lemma precision_in_range_iff (precision : Z) :
  (1 <=? precision) && (precision <=? 12) = true
  <-> precision_in_range precision.
Proof.
  unfold precision_in_range. rewrite andb_true_iff, !Z.leb_le. reflexivity.
Qed.

(** The float literals of the fixtures are the correctly rounded
    quotients of their decimal digits. *)
Lemma fixture_literals :
  test_data.sf_lat = div (of_int 377749) (of_int 10000) /\
  test_data.sf_lon = div (of_int (-1224194)) (of_int 10000) /\
  test_data.ny_lat = div (of_int 407128) (of_int 10000) /\
  test_data.ny_lon = div (of_int (-740060)) (of_int 10000).
Proof. vm_compute. repeat split. Qed.

(** The bounds are tight in binary64: the float next above 90 and the
    float next below -90 are rejected, and so for the longitude. *)
Lemma ranges_tight :
  latitude_in_range (SFsucc prec emax (of_int 90)) = false /\
  latitude_in_range (SFpred prec emax (of_int (-90))) = false /\
  longitude_in_range (SFsucc prec emax (of_int 180)) = false /\
  longitude_in_range (SFpred prec emax (of_int (-180))) = false /\
  latitude_in_range (SFpred prec emax (of_int 90)) = true /\
  longitude_in_range (SFsucc prec emax (of_int (-180))) = true /\
  latitude_in_range S754_nan = false /\
  longitude_in_range (S754_infinity false) = false.
Proof. vm_compute. repeat split. Qed.

(** ** The claims *)

(** C1.  For every latitude in [-90, 90], longitude in [-180, 180] and
    precision in [1, 12], [calculate_geohashes [lat] [lon] precision]
    returns a list of one string, of length exactly [precision] and
    made of characters of the alphabet
    0123456789bcdefghjkmnpqrstuvwxyz. *)
Theorem single_pair_geohash_well_formed
  (self : geohash_cache) (lat lon : float) (precision : Z) :
  sound_cache self = true ->
  latitude_in_range lat = true ->
  longitude_in_range lon = true ->
  precision_in_range precision ->
  exists h,
    fst (calculate_geohashes [lat] [lon] precision self) = Return [h] /\
    Z.of_nat (String.length h) = precision /\
    in_alphabet h.
Proof.
  intros Hs Hlat Hlon Hp.
  destruct (calculate_geohashes_result [lat] [lon] precision self Hs)
    as [Hr _].
  exists (geohash.encode lat lon precision). split; [|split].
  - rewrite Hr. unfold calculate_geohashes__wrapped.
    cbn [List.length Nat.eqb negb combine comprehension__wrapped].
    now rewrite (wrapped_valid lat lon precision
                   (valid_triple_intro lat lon precision Hlat Hlon Hp)).
  - rewrite geohash_facts.encode_length. unfold precision_in_range in Hp. lia.
  - apply geohash_facts.encode_alphabet.
Qed.

Lemma single_pair_geohash_well_formed_witness :
  sound_cache test_data.warm_cache = true /\
  latitude_in_range test_data.north_pole = true /\
  longitude_in_range test_data.antimeridian_west = true /\
  precision_in_range 12 /\
  exists h,
    fst (calculate_geohashes [test_data.north_pole]
           [test_data.antimeridian_west] 12 test_data.warm_cache)
    = Return [h] /\
    Z.of_nat (String.length h) = 12 /\
    in_alphabet h.
Proof.
  assert (Hs : sound_cache test_data.warm_cache = true)
    by (vm_compute; reflexivity).
  assert (Hlat : latitude_in_range test_data.north_pole = true)
    by (vm_compute; reflexivity).
  assert (Hlon : longitude_in_range test_data.antimeridian_west = true)
    by (vm_compute; reflexivity).
  assert (Hp : precision_in_range 12) by (unfold precision_in_range; lia).
  repeat split; try assumption; try (unfold precision_in_range; lia).
  exact (single_pair_geohash_well_formed test_data.warm_cache
           test_data.north_pole test_data.antimeridian_west 12
           Hs Hlat Hlon Hp).
Defined.

(** C2.  What the code returns at the two inputs of the claim, on any
    sound cache: the San Francisco pair at precision 5 gives ["9q8yy"],
    as the docstring example of [calculate_geohashes] says, and the New
    York pair at precision 5 gives ["dr5re"], where that example and
    [EXPECTED_GEOHASHES_NY] of tests/test_data.py say "dr5rs". *)
Theorem known_city_geohashes (self : geohash_cache) :
  sound_cache self = true ->
  fst (calculate_geohashes [test_data.sf_lat] [test_data.sf_lon] 5 self)
  = Return ["9q8yy"] /\
  fst (calculate_geohashes [test_data.ny_lat] [test_data.ny_lon] 5 self)
  = Return ["dr5re"].
Proof.
  intros Hs. split.
  - destruct (calculate_geohashes_result [test_data.sf_lat]
                [test_data.sf_lon] 5 self Hs) as [-> _].
    vm_compute. reflexivity.
  - destruct (calculate_geohashes_result [test_data.ny_lat]
                [test_data.ny_lon] 5 self Hs) as [-> _].
    vm_compute. reflexivity.
Qed.

Lemma known_city_geohashes_witness :
  sound_cache test_data.warm_cache = true /\
  fst (calculate_geohashes [test_data.sf_lat] [test_data.sf_lon] 5
         test_data.warm_cache) = Return ["9q8yy"] /\
  fst (calculate_geohashes [test_data.ny_lat] [test_data.ny_lon] 5
         test_data.warm_cache) = Return ["dr5re"].
Proof.
  assert (Hs : sound_cache test_data.warm_cache = true)
    by (vm_compute; reflexivity).
  split; [exact Hs|].
  exact (known_city_geohashes test_data.warm_cache Hs).
Defined.

(** At the New York pair the code departs from its docstring example:
    on the empty cache the call at precision 5 does not give
    ["dr5rs"]. *)
Lemma new_york_oracle_counterexample :
  ~ (fst (calculate_geohashes [test_data.sf_lat] [test_data.sf_lon] 5
            cache_clear) = Return ["9q8yy"] /\
     fst (calculate_geohashes [test_data.ny_lat] [test_data.ny_lon] 5
            cache_clear) = Return ["dr5rs"]).
Proof.
  intros [_ H]. vm_compute in H. discriminate H.
Qed.

(** C3.  The range checks raise exactly when a value is out of range,
    with both ends of each range included: -90, 90, -180, 180, 1 and 12
    pass.  A latitude out of range gives "Latitude must be between -90
    and 90, got {lat}"; the longitude check, reached when the latitude
    passed, gives "Longitude must be between -180 and 180, got {lon}";
    the precision check, reached when both coordinates passed, gives
    "Precision must be between 1 and 12, got {precision}".  Whatever is
    raised is one of these three messages, and the value it names is
    out of range. *)
Theorem range_checks_inclusive (lat lon : float) (precision : Z) :
  ((exists e,
      _calculate_single_geohash__wrapped (lat, lon, precision) = Raise e)
   <-> (latitude_in_range lat = false \/
        longitude_in_range lon = false \/
        ~ precision_in_range precision)) /\
  (latitude_in_range lat = false ->
   _calculate_single_geohash__wrapped (lat, lon, precision)
   = Raise (ValueError
       [Lit "Latitude must be between -90 and 90, got ";
        Fmt (Float lat)])) /\
  (latitude_in_range lat = true -> longitude_in_range lon = false ->
   _calculate_single_geohash__wrapped (lat, lon, precision)
   = Raise (ValueError
       [Lit "Longitude must be between -180 and 180, got ";
        Fmt (Float lon)])) /\
  (latitude_in_range lat = true -> longitude_in_range lon = true ->
   ~ precision_in_range precision ->
   _calculate_single_geohash__wrapped (lat, lon, precision)
   = Raise (ValueError
       [Lit "Precision must be between 1 and 12, got ";
        Fmt (Int precision)])) /\
  (forall e,
     _calculate_single_geohash__wrapped (lat, lon, precision) = Raise e ->
     (e = latitude_message lat /\ latitude_in_range lat = false) \/
     (e = longitude_message lon /\ longitude_in_range lon = false) \/
     (e = precision_message precision /\ ~ precision_in_range precision)) /\
  (In lat [of_int (-90); of_int 90] ->
   In lon [of_int (-180); of_int 180] ->
   In precision [1; 12] ->
   _calculate_single_geohash__wrapped (lat, lon, precision)
   = Return (geohash.encode lat lon precision)).
Proof.
  pose proof (precision_in_range_iff precision) as Hprec.
  unfold latitude_in_range, longitude_in_range.
  split; [|split; [|split; [|split; [|split]]]].
  - unfold _calculate_single_geohash__wrapped.
    destruct (le (of_int (-90)) lat && le lat (of_int 90));
      cbn [negb]; [|split; eauto].
    destruct (le (of_int (-180)) lon && le lon (of_int 180));
      cbn [negb]; [|split; eauto].
    clear Hprec.
    destruct ((1 <=? precision) && (precision <=? 12)) eqn:Hp; cbn [negb].
    + apply precision_in_range_iff in Hp. split.
      * intros [e He]. discriminate He.
      * intros [H|[H|H]]; try discriminate H. contradiction.
    + split; [|eauto]. intros _. right. right.
      intros H. apply precision_in_range_iff in H. congruence.
  - intros Hlat. unfold _calculate_single_geohash__wrapped.
    now rewrite Hlat.
  - intros Hlat Hlon. unfold _calculate_single_geohash__wrapped.
    now rewrite Hlat, Hlon.
  - intros Hlat Hlon Hp. unfold _calculate_single_geohash__wrapped.
    rewrite Hlat, Hlon. cbn [negb]. clear Hprec.
    destruct ((1 <=? precision) && (precision <=? 12)) eqn:Hb;
      [|reflexivity].
    apply precision_in_range_iff in Hb. contradiction.
  - clear Hprec. intros e.
    unfold _calculate_single_geohash__wrapped, latitude_message,
      longitude_message, precision_message.
    destruct (le (of_int (-90)) lat && le lat (of_int 90));
      cbn [negb]; [|intros [= <-]; auto].
    destruct (le (of_int (-180)) lon && le lon (of_int 180));
      cbn [negb]; [|intros [= <-]; auto].
    destruct ((1 <=? precision) && (precision <=? 12)) eqn:Hb;
      cbn [negb]; [discriminate|].
    intros [= <-]. right. right. split; [reflexivity|].
    intros H. apply precision_in_range_iff in H. congruence.
  - intros Hlat Hlon Hp. apply wrapped_valid.
    cbn [In] in Hlat, Hlon, Hp.
    destruct Hlat as [<-|[<-|[]]]; destruct Hlon as [<-|[<-|[]]];
      destruct Hp as [<-|[<-|[]]]; vm_compute; reflexivity.
Qed.

Lemma range_checks_inclusive_witness :
  latitude_in_range test_data.lat_91 = false /\
  _calculate_single_geohash__wrapped
    (test_data.lat_91, test_data.lon_181, 13)
  = Raise (ValueError
      [Lit "Latitude must be between -90 and 90, got ";
       Fmt (Float test_data.lat_91)]).
Proof.
  assert (Hlat : latitude_in_range test_data.lat_91 = false)
    by (vm_compute; reflexivity).
  split; [exact Hlat|].
  exact (proj1 (proj2
    (range_checks_inclusive test_data.lat_91 test_data.lon_181 13)) Hlat).
Defined.

(** C4.  Lists of unequal lengths: the call raises "Latitude and
    longitude lists must have same length, got {len(lats)} and
    {len(lons)}", returns nothing, and the cache, counters included, is
    the one before the call. *)
Theorem length_mismatch_raises
  (lats lons : list float) (precision : Z) (self : geohash_cache) :
  List.length lats <> List.length lons ->
  calculate_geohashes lats lons precision self
  = (Raise (ValueError
       [Lit "Latitude and longitude lists must have same length, got ";
        Fmt (Int (Z.of_nat (List.length lats))); Lit " and ";
        Fmt (Int (Z.of_nat (List.length lons)))]),
     self).
Proof.
  intros Hne. unfold calculate_geohashes.
  apply Nat.eqb_neq in Hne. now rewrite Hne.
Qed.

Lemma length_mismatch_raises_witness :
  List.length [test_data.sf_lat; test_data.ny_lat]
  <> List.length [test_data.sf_lon] /\
  calculate_geohashes [test_data.sf_lat; test_data.ny_lat]
    [test_data.sf_lon] 5 test_data.warm_cache
  = (Raise (ValueError
       [Lit "Latitude and longitude lists must have same length, got ";
        Fmt (Int 2); Lit " and "; Fmt (Int 1)]),
     test_data.warm_cache).
Proof.
  assert (Hne : List.length [test_data.sf_lat; test_data.ny_lat]
                <> List.length [test_data.sf_lon])
    by (simpl; lia).
  split; [exact Hne|].
  exact (length_mismatch_raises [test_data.sf_lat; test_data.ny_lat]
           [test_data.sf_lon] 5 test_data.warm_cache Hne).
Defined.

(** C6.  On sound caches, whatever they hold, a call returns or raises
    what the same call returns or raises on any other sound cache, and
    what the batch computes without memoization; in particular a second
    call on the cache the first one left gives the result of the
    first. *)
Theorem results_independent_of_cache
  (lats lons : list float) (precision : Z) (self1 self2 : geohash_cache) :
  sound_cache self1 = true ->
  sound_cache self2 = true ->
  fst (calculate_geohashes lats lons precision self1)
  = fst (calculate_geohashes lats lons precision self2) /\
  fst (calculate_geohashes lats lons precision self1)
  = calculate_geohashes__wrapped lats lons precision /\
  fst (calculate_geohashes lats lons precision
         (snd (calculate_geohashes lats lons precision self1)))
  = fst (calculate_geohashes lats lons precision self1).
Proof.
  intros Hs1 Hs2.
  destruct (calculate_geohashes_result lats lons precision self1 Hs1)
    as [Hr1 Hs1'].
  destruct (calculate_geohashes_result lats lons precision self2 Hs2)
    as [Hr2 _].
  destruct (calculate_geohashes_result lats lons precision _ Hs1')
    as [Hr3 _].
  rewrite Hr1, Hr2, Hr3. auto.
Qed.

Lemma results_independent_of_cache_witness :
  sound_cache cache_clear = true /\
  sound_cache test_data.warm_cache = true /\
  fst (calculate_geohashes [test_data.ny_lat; test_data.sf_lat]
         [test_data.ny_lon; test_data.sf_lon] 5 cache_clear)
  = fst (calculate_geohashes [test_data.ny_lat; test_data.sf_lat]
         [test_data.ny_lon; test_data.sf_lon] 5 test_data.warm_cache).
Proof.
  assert (Hs1 : sound_cache (@cache_clear args string) = true)
    by reflexivity.
  assert (Hs2 : sound_cache test_data.warm_cache = true)
    by (vm_compute; reflexivity).
  repeat (split; [assumption|]).
  exact (proj1 (results_independent_of_cache
                  [test_data.ny_lat; test_data.sf_lat]
                  [test_data.ny_lon; test_data.sf_lon] 5
                  cache_clear test_data.warm_cache Hs1 Hs2)).
Defined.

(** C7.  Two empty lists: the call returns the empty list for every
    integer precision, in range or not, and the cache, counters
    included, is the one before the call: nothing was looked up or
    encoded. *)
Theorem empty_batch_returns_empty (precision : Z) (self : geohash_cache) :
  calculate_geohashes [] [] precision self = (Return [], self).
Proof. reflexivity. Qed.

(** C8, as amended.  On a sound cache, a call of
    [_calculate_single_geohash] with a triple that fails validation looks
    the triple up first, which misses; the validator then runs and its
    error reaches the caller unchanged; the stored entries, their order
    and the hit count stay as they were, and the lookup is counted as
    one miss. *)
Theorem invalid_call_misses_then_raises
  (lat lon : float) (precision : Z) (self : geohash_cache) (e : exn) :
  sound_cache self = true ->
  _calculate_single_geohash__wrapped (lat, lon, precision) = Raise e ->
  fst (_calculate_single_geohash lat lon precision self) = Raise e /\
  cache (snd (_calculate_single_geohash lat lon precision self))
  = cache self /\
  hits (snd (_calculate_single_geohash lat lon precision self))
  = hits self /\
  misses (snd (_calculate_single_geohash lat lon precision self))
  = S (misses self) /\
  lookups (snd (_calculate_single_geohash lat lon precision self))
  = S (lookups self).
Proof.
  intros Hs He.
  rewrite (single_raise lat lon precision self e Hs He).
  unfold lookups, count_miss. cbn [fst snd cache hits misses].
  repeat split; lia.
Qed.

Lemma invalid_call_misses_then_raises_witness :
  sound_cache test_data.warm_cache = true /\
  _calculate_single_geohash__wrapped (test_data.zero, test_data.lon_181, 5)
  = Raise (longitude_message test_data.lon_181) /\
  fst (_calculate_single_geohash test_data.zero test_data.lon_181 5
         test_data.warm_cache)
  = Raise (longitude_message test_data.lon_181) /\
  cache (snd (_calculate_single_geohash test_data.zero test_data.lon_181 5
                test_data.warm_cache))
  = cache test_data.warm_cache.
Proof.
  assert (Hs : sound_cache test_data.warm_cache = true)
    by (vm_compute; reflexivity).
  assert (He : _calculate_single_geohash__wrapped
                 (test_data.zero, test_data.lon_181, 5)
               = Raise (longitude_message test_data.lon_181))
    by (vm_compute; reflexivity).
  repeat (split; [assumption|]).
  destruct (invalid_call_misses_then_raises test_data.zero
              test_data.lon_181 5 test_data.warm_cache
              (longitude_message test_data.lon_181) Hs He)
    as (Hr & Hc & _).
  split; assumption.
Defined.

(** C8, as stated, fails: on the empty cache the call with latitude
    91.0 raises the latitude error, and the cache has been looked up
    for it: no lookup was recorded before the call, one, a miss, is
    recorded after it. *)
Lemma invalid_call_lookup_counterexample :
  _calculate_single_geohash__wrapped (test_data.lat_91, test_data.zero, 5)
  = Raise (latitude_message test_data.lat_91) /\
  lookups (@cache_clear args string) = 0%nat /\
  lookups (snd (_calculate_single_geohash test_data.lat_91 test_data.zero 5
                  cache_clear)) = 1%nat /\
  misses (snd (_calculate_single_geohash test_data.lat_91 test_data.zero 5
                 cache_clear)) <> misses (@cache_clear args string).
Proof.
  repeat split; try (vm_compute; reflexivity).
  vm_compute. discriminate.
Qed.

(** The geohash at a smaller precision starts the geohash at a larger
    one. *)
Lemma encode_prefix (lat lon : float) (p q : Z) :
  0 <= p -> p < q ->
  exists rest,
    geohash.encode lat lon q
    = (geohash.encode lat lon p ++ rest)%string /\
    String.length rest = Z.to_nat (q - p).
Proof.
  intros Hp Hpq. unfold geohash.encode.
  replace (Z.to_nat q) with (Z.to_nat p + Z.to_nat (q - p))%nat by lia.
  destruct (geohash_facts.chars_app (Z.to_nat p) (Z.to_nat (q - p)) true
              lat lon geohash.world) as (rest & Heq & Hlen).
  exists (string_of_list_ascii rest). split.
  - rewrite Heq. apply geohash_facts.string_of_list_ascii_app.
  - now rewrite geohash_facts.length_string_of_list_ascii.
Qed.

(** C9.  For a valid pair of coordinates and valid precisions p < q,
    the geohash at precision p is a strict prefix of the geohash at
    precision q (a non-empty rest follows it), and the two geohashes
    differ. *)
Theorem smaller_precision_is_strict_prefix
  (lat lon : float) (p q : Z) (self1 self2 : geohash_cache) :
  sound_cache self1 = true ->
  sound_cache self2 = true ->
  latitude_in_range lat = true ->
  longitude_in_range lon = true ->
  precision_in_range p ->
  precision_in_range q ->
  p < q ->
  exists hp hq rest,
    fst (_calculate_single_geohash lat lon p self1) = Return hp /\
    fst (_calculate_single_geohash lat lon q self2) = Return hq /\
    hq = (hp ++ rest)%string /\
    rest <> EmptyString /\
    hp <> hq.
Proof.
  intros Hs1 Hs2 Hlat Hlon Hp Hq Hpq.
  rewrite (single_result lat lon p self1 Hs1).
  rewrite (single_result lat lon q self2 Hs2).
  rewrite (wrapped_valid lat lon p (valid_triple_intro lat lon p Hlat Hlon Hp)).
  rewrite (wrapped_valid lat lon q (valid_triple_intro lat lon q Hlat Hlon Hq)).
  unfold precision_in_range in Hp, Hq.
  destruct (encode_prefix lat lon p q ltac:(lia) Hpq) as (rest & Heq & Hlen).
  exists (geohash.encode lat lon p), (geohash.encode lat lon q), rest.
  repeat split; try assumption.
  - intros ->. simpl in Hlen. lia.
  - intros H. apply (f_equal String.length) in H.
    rewrite !geohash_facts.encode_length in H. lia.
Qed.

Lemma smaller_precision_is_strict_prefix_witness :
  sound_cache cache_clear = true /\
  sound_cache test_data.warm_cache = true /\
  latitude_in_range test_data.sf_lat = true /\
  longitude_in_range test_data.sf_lon = true /\
  precision_in_range 5 /\
  precision_in_range 8 /\
  5 < 8 /\
  exists hp hq rest,
    fst (_calculate_single_geohash test_data.sf_lat test_data.sf_lon 5
           cache_clear) = Return hp /\
    fst (_calculate_single_geohash test_data.sf_lat test_data.sf_lon 8
           test_data.warm_cache) = Return hq /\
    hq = (hp ++ rest)%string /\
    rest <> EmptyString /\
    hp <> hq.
Proof.
  assert (Hs1 : sound_cache (@cache_clear args string) = true)
    by reflexivity.
  assert (Hs2 : sound_cache test_data.warm_cache = true)
    by (vm_compute; reflexivity).
  assert (Hlat : latitude_in_range test_data.sf_lat = true)
    by (vm_compute; reflexivity).
  assert (Hlon : longitude_in_range test_data.sf_lon = true)
    by (vm_compute; reflexivity).
  assert (Hp : precision_in_range 5) by (unfold precision_in_range; lia).
  assert (Hq : precision_in_range 8) by (unfold precision_in_range; lia).
  assert (Hpq : 5 < 8) by lia.
  repeat (split; [assumption|]).
  exact (smaller_precision_is_strict_prefix test_data.sf_lat
           test_data.sf_lon 5 8 cache_clear test_data.warm_cache
           Hs1 Hs2 Hlat Hlon Hp Hq Hpq).
Defined.

(** C10.  The checks of one triple run in the order latitude,
    longitude, precision: on a sound cache, a latitude out of range
    raises the latitude message whatever the longitude and the precision
    are, and a longitude out of range with the latitude in range raises
    the longitude message whatever the precision is. *)
Theorem checks_run_in_order
  (lat lon : float) (precision : Z) (self : geohash_cache) :
  sound_cache self = true ->
  (latitude_in_range lat = false ->
   fst (_calculate_single_geohash lat lon precision self)
   = Raise (ValueError
       [Lit "Latitude must be between -90 and 90, got ";
        Fmt (Float lat)])) /\
  (latitude_in_range lat = true -> longitude_in_range lon = false ->
   fst (_calculate_single_geohash lat lon precision self)
   = Raise (ValueError
       [Lit "Longitude must be between -180 and 180, got ";
        Fmt (Float lon)])).
Proof.
  intros Hs. rewrite (single_result lat lon precision self Hs).
  unfold latitude_in_range, longitude_in_range,
    _calculate_single_geohash__wrapped.
  split.
  - intros Hlat. now rewrite Hlat.
  - intros Hlat Hlon. now rewrite Hlat, Hlon.
Qed.

Lemma checks_run_in_order_witness :
  sound_cache test_data.warm_cache = true /\
  latitude_in_range test_data.lat_91 = false /\
  longitude_in_range test_data.lon_181 = false /\
  ~ precision_in_range 13 /\
  fst (_calculate_single_geohash test_data.lat_91 test_data.lon_181 13
         test_data.warm_cache)
  = Raise (ValueError
      [Lit "Latitude must be between -90 and 90, got ";
       Fmt (Float test_data.lat_91)]) /\
  latitude_in_range test_data.zero = true /\
  fst (_calculate_single_geohash test_data.zero test_data.lon_181 13
         test_data.warm_cache)
  = Raise (ValueError
      [Lit "Longitude must be between -180 and 180, got ";
       Fmt (Float test_data.lon_181)]).
Proof.
  assert (Hs : sound_cache test_data.warm_cache = true)
    by (vm_compute; reflexivity).
  assert (Hlat : latitude_in_range test_data.lat_91 = false)
    by (vm_compute; reflexivity).
  assert (Hlon : longitude_in_range test_data.lon_181 = false)
    by (vm_compute; reflexivity).
  assert (Hp : ~ precision_in_range 13)
    by (unfold precision_in_range; lia).
  assert (Hlat0 : latitude_in_range test_data.zero = true)
    by (vm_compute; reflexivity).
  repeat (split; [assumption|]).
  split; [|split; [assumption|]].
  - exact (proj1 (checks_run_in_order test_data.lat_91 test_data.lon_181
                    13 test_data.warm_cache Hs) Hlat).
  - exact (proj2 (checks_run_in_order test_data.zero test_data.lon_181
                    13 test_data.warm_cache Hs) Hlat0 Hlon).
Defined.

(** ** Further facts on [calculate_geohashes] *)

(** Without memoization the comprehension returns the geohashes of the
    pairs, in order, when every pair passes the checks, and raises
    otherwise. *)
Lemma comprehension__wrapped_valid pairs precision :
  forallb (valid_pair precision) pairs = true ->
  comprehension__wrapped pairs precision
  = Return (map (encode_pair precision) pairs).
Proof.
  induction pairs as [|[lat lon] pairs IH];
    cbn [comprehension__wrapped forallb map]; intros H.
  - reflexivity.
  - apply andb_prop in H. destruct H as [Hv Hrest].
    unfold valid_pair in Hv. cbn [fst snd] in Hv.
    rewrite (wrapped_valid lat lon precision Hv), (IH Hrest).
    reflexivity.
Qed.

Lemma comprehension__wrapped_invalid pairs precision :
  forallb (valid_pair precision) pairs = false ->
  exists e, comprehension__wrapped pairs precision = Raise e.
Proof.
  induction pairs as [|[lat lon] pairs IH];
    cbn [comprehension__wrapped forallb]; intros H.
  - discriminate.
  - unfold valid_pair at 1 in H. cbn [fst snd] in H.
    destruct (valid_triple lat lon precision) eqn:Hv.
    + rewrite (wrapped_valid lat lon precision Hv).
      destruct (IH H) as [e ->]. eauto.
    + destruct (wrapped_invalid lat lon precision Hv) as [e ->]. eauto.
Qed.

(** What the batch without memoization does, by cases. *)
Lemma calculate_geohashes__wrapped_cases lats lons precision :
  (List.length lats = List.length lons /\
   forallb (valid_pair precision) (combine lats lons) = true /\
   calculate_geohashes__wrapped lats lons precision
   = Return (map (encode_pair precision) (combine lats lons))) \/
  ((List.length lats <> List.length lons \/
    forallb (valid_pair precision) (combine lats lons) = false) /\
   exists e, calculate_geohashes__wrapped lats lons precision = Raise e).
Proof.
  unfold calculate_geohashes__wrapped.
  destruct (List.length lats =? List.length lons)%nat eqn:Hlen; cbn [negb].
  - apply Nat.eqb_eq in Hlen.
    assert (Hc : match lats with
                 | [] => Return []
                 | _ => comprehension__wrapped (combine lats lons) precision
                 end = comprehension__wrapped (combine lats lons) precision)
      by (destruct lats; reflexivity).
    rewrite Hc.
    destruct (forallb (valid_pair precision) (combine lats lons)) eqn:Hv.
    + left. rewrite (comprehension__wrapped_valid _ _ Hv). auto.
    + right. split; [auto|].
      apply (comprehension__wrapped_invalid _ _ Hv).
  - apply Nat.eqb_neq in Hlen. right. split; [auto|]. eauto.
Qed.

Lemma nth_error_combine (l1 l2 : list float) : forall n x y,
  nth_error l1 n = Some x -> nth_error l2 n = Some y ->
  nth_error (combine l1 l2) n = Some (x, y).
Proof.
  revert l2. induction l1 as [|a l1 IH]; intros [|b l2] [|n] x y H1 H2;
    simpl in *; try discriminate.
  - congruence.
  - now apply IH.
Qed.

(** X1.  On a sound cache [calculate_geohashes] returns exactly when
    the two lists have the same length and every pair of [zip(lats,
    lons)] passes the three range checks with the given precision; with
    two empty lists nothing is checked. *)
Theorem batch_returns_iff
  (lats lons : list float) (precision : Z) (self : geohash_cache) :
  sound_cache self = true ->
  ((exists hs,
      fst (calculate_geohashes lats lons precision self) = Return hs)
   <-> (List.length lats = List.length lons /\
        forallb (valid_pair precision) (combine lats lons) = true)).
Proof.
  intros Hs.
  destruct (calculate_geohashes_result lats lons precision self Hs)
    as [-> _].
  destruct (calculate_geohashes__wrapped_cases lats lons precision)
    as [(Hlen & Hv & ->)|([Hlen|Hv] & e & ->)].
  - split; eauto.
  - split; [intros [hs H]; discriminate H|intros [H _]; contradiction].
  - split; [intros [hs H]; discriminate H|].
    intros [_ H]. rewrite H in Hv. discriminate Hv.
Qed.

Lemma batch_returns_iff_witness :
  sound_cache test_data.warm_cache = true /\
  ((exists hs,
      fst (calculate_geohashes [test_data.north_pole] [test_data.zero] 0
             test_data.warm_cache) = Return hs)
   <-> (List.length [test_data.north_pole] = List.length [test_data.zero] /\
        forallb (valid_pair 0)
          (combine [test_data.north_pole] [test_data.zero]) = true)).
Proof.
  assert (Hs : sound_cache test_data.warm_cache = true)
    by (vm_compute; reflexivity).
  split; [exact Hs|].
  exact (batch_returns_iff [test_data.north_pole] [test_data.zero] 0
           test_data.warm_cache Hs).
Defined.

(** X2.  What a call on a sound cache returns is the list of the
    geohashes of the pairs, in the order of the input: as many strings
    as latitudes, the i-th being the geohash of the i-th latitude and
    longitude. *)
Theorem batch_result_in_order
  (lats lons : list float) (precision : Z) (self : geohash_cache)
  (hs : list string) :
  sound_cache self = true ->
  fst (calculate_geohashes lats lons precision self) = Return hs ->
  hs = map (encode_pair precision) (combine lats lons) /\
  List.length hs = List.length lats /\
  forall i lat lon,
    nth_error lats i = Some lat -> nth_error lons i = Some lon ->
    nth_error hs i = Some (geohash.encode lat lon precision).
Proof.
  intros Hs Hr.
  destruct (calculate_geohashes_result lats lons precision self Hs)
    as [Hw _].
  rewrite Hw in Hr.
  destruct (calculate_geohashes__wrapped_cases lats lons precision)
    as [(Hlen & Hv & Heq)|(_ & e & Heq)];
    rewrite Heq in Hr; [|discriminate Hr].
  injection Hr as <-.
  split; [reflexivity|]. split.
  - rewrite length_map, length_combine. lia.
  - intros i lat lon Hlat Hlon.
    rewrite nth_error_map.
    rewrite (nth_error_combine lats lons i lat lon Hlat Hlon). reflexivity.
Qed.

Lemma batch_result_in_order_witness :
  sound_cache cache_clear = true /\
  fst (calculate_geohashes [test_data.sf_lat; test_data.ny_lat]
         [test_data.sf_lon; test_data.ny_lon] 5 cache_clear)
  = Return ["9q8yy"; "dr5re"] /\
  nth_error ["9q8yy"; "dr5re"] 1
  = Some (geohash.encode test_data.ny_lat test_data.ny_lon 5).
Proof.
  assert (Hs : sound_cache (@cache_clear args string) = true)
    by reflexivity.
  assert (Hr : fst (calculate_geohashes [test_data.sf_lat; test_data.ny_lat]
                      [test_data.sf_lon; test_data.ny_lon] 5 cache_clear)
               = Return ["9q8yy"; "dr5re"])
    by (vm_compute; reflexivity).
  repeat (split; [assumption|]).
  exact (proj2 (proj2 (batch_result_in_order
           [test_data.sf_lat; test_data.ny_lat]
           [test_data.sf_lon; test_data.ny_lon] 5 cache_clear
           ["9q8yy"; "dr5re"] Hs Hr))
         1%nat test_data.ny_lat test_data.ny_lon eq_refl eq_refl).
Defined.

(** X3.  The precision is checked with the first pair, not before: on
    a sound cache, lists of equal length that are not empty and a
    precision outside 1..12 make the call raise the error of the first
    pair, which is the precision message when its two coordinates are in
    range; nothing is stored and the failing lookup is counted once. *)
Theorem nonempty_batch_checks_precision
  (lat lon : float) (lats lons : list float) (precision : Z)
  (self : geohash_cache) :
  sound_cache self = true ->
  List.length lats = List.length lons ->
  ~ precision_in_range precision ->
  exists e,
    _calculate_single_geohash__wrapped (lat, lon, precision) = Raise e /\
    calculate_geohashes (lat :: lats) (lon :: lons) precision self
    = (Raise e, count_miss self) /\
    (latitude_in_range lat = true -> longitude_in_range lon = true ->
     e = precision_message precision).
Proof.
  intros Hs Hlen Hp.
  assert (Hv : valid_triple lat lon precision = false).
  { unfold valid_triple.
    destruct ((1 <=? precision) && (precision <=? 12)) eqn:Hb.
    - apply precision_in_range_iff in Hb. contradiction.
    - rewrite <- andb_assoc, Hb. apply andb_false_r. }
  destruct (wrapped_invalid lat lon precision Hv) as [e He].
  exists e. split; [exact He|]. split.
  - unfold calculate_geohashes. cbn [List.length]. rewrite Hlen.
    rewrite Nat.eqb_refl. cbn [negb combine comprehension].
    now rewrite (single_raise lat lon precision self e Hs He).
  - intros Hlat Hlon. revert He.
    unfold _calculate_single_geohash__wrapped, precision_message.
    unfold latitude_in_range in Hlat. unfold longitude_in_range in Hlon.
    rewrite Hlat, Hlon. cbn [negb].
    destruct ((1 <=? precision) && (precision <=? 12)) eqn:Hb; cbn [negb].
    + discriminate.
    + now intros [= <-].
Qed.

Lemma nonempty_batch_checks_precision_witness :
  sound_cache test_data.warm_cache = true /\
  List.length [test_data.ny_lat] = List.length [test_data.ny_lon] /\
  ~ precision_in_range 13 /\
  exists e,
    _calculate_single_geohash__wrapped
      (test_data.sf_lat, test_data.sf_lon, 13) = Raise e /\
    calculate_geohashes (test_data.sf_lat :: [test_data.ny_lat])
      (test_data.sf_lon :: [test_data.ny_lon]) 13 test_data.warm_cache
    = (Raise e, count_miss test_data.warm_cache) /\
    (latitude_in_range test_data.sf_lat = true ->
     longitude_in_range test_data.sf_lon = true ->
     e = precision_message 13).
Proof.
  assert (Hs : sound_cache test_data.warm_cache = true)
    by (vm_compute; reflexivity).
  assert (Hlen : List.length [test_data.ny_lat]
                 = List.length [test_data.ny_lon]) by reflexivity.
  assert (Hp : ~ precision_in_range 13)
    by (unfold precision_in_range; lia).
  repeat (split; [assumption|]).
  exact (nonempty_batch_checks_precision test_data.sf_lat test_data.sf_lon
           [test_data.ny_lat] [test_data.ny_lon] 13 test_data.warm_cache
           Hs Hlen Hp).
Defined.

(** Every call of the memoized function is one lookup. *)
Lemma single_lookups lat lon precision self :
  lookups (snd (_calculate_single_geohash lat lon precision self))
  = S (lookups self).
Proof.
  unfold lookups, _calculate_single_geohash. apply wrapper_lookups.
Qed.

Lemma comprehension_lookups pairs precision : forall self,
  (lookups self <= lookups (snd (comprehension pairs precision self))
   <= lookups self + List.length pairs)%nat /\
  forall hs,
    fst (comprehension pairs precision self) = Return hs ->
    List.length hs = List.length pairs /\
    lookups (snd (comprehension pairs precision self))
    = (lookups self + List.length pairs)%nat.
Proof.
  induction pairs as [|[lat lon] pairs IH]; intros self;
    cbn [comprehension List.length].
  - split; [cbn [snd]; lia|].
    intros hs [= <-]. cbn [snd List.length]. lia.
  - pose proof (single_lookups lat lon precision self) as Hl.
    destruct (_calculate_single_geohash lat lon precision self)
      as [[h|e] self']; cbn [snd] in Hl.
    + destruct (IH self') as [Hb Heq].
      destruct (comprehension pairs precision self') as [[hs'|e] self''];
        cbn [fst snd] in *.
      * split; [lia|]. intros hs [= <-].
        destruct (Heq hs' eq_refl) as [Hlen Hlk].
        cbn [List.length]. lia.
      * split; [lia|]. intros hs H. discriminate H.
    + cbn [fst snd]. split; [lia|]. intros hs H. discriminate H.
Qed.

(** X4.  A call looks the cache up at most once per pair and in the
    order of the pairs: with lists of different lengths or two empty
    lists it performs no lookup, a call that raises on a pair stops
    there, and a call that returns has performed exactly [len(lats)]
    lookups, each counted as a hit or as a miss. *)
Theorem batch_lookups
  (lats lons : list float) (precision : Z) (self : geohash_cache) :
  (lookups self
   <= lookups (snd (calculate_geohashes lats lons precision self))
   <= lookups self + List.length lats)%nat /\
  (List.length lats <> List.length lons ->
   lookups (snd (calculate_geohashes lats lons precision self))
   = lookups self) /\
  (forall hs,
     fst (calculate_geohashes lats lons precision self) = Return hs ->
     lookups (snd (calculate_geohashes lats lons precision self))
     = (lookups self + List.length lats)%nat).
Proof.
  unfold calculate_geohashes.
  destruct (List.length lats =? List.length lons)%nat eqn:Hlen; cbn [negb].
  - apply Nat.eqb_eq in Hlen.
    destruct lats as [|lat lats].
    + cbn [fst snd List.length]. repeat split; lia.
    + destruct (comprehension_lookups (combine (lat :: lats) lons)
                  precision self) as [Hb Heq].
      rewrite length_combine, <- Hlen, Nat.min_id in Hb, Heq.
      split; [exact Hb|]. split; [intros H; contradiction|].
      intros hs Hr. now destruct (Heq hs Hr).
  - cbn [fst snd]. split; [lia|]. split; [reflexivity|].
    intros hs H. discriminate H.
Qed.

Lemma batch_lookups_witness :
  fst (calculate_geohashes [test_data.sf_lat; test_data.zero]
         [test_data.sf_lon; test_data.zero] 5 test_data.warm_cache)
  = Return ["9q8yy"; "s0000"] /\
  lookups (snd (calculate_geohashes [test_data.sf_lat; test_data.zero]
                  [test_data.sf_lon; test_data.zero] 5
                  test_data.warm_cache))
  = (lookups test_data.warm_cache + 2)%nat.
Proof.
  assert (Hr : fst (calculate_geohashes [test_data.sf_lat; test_data.zero]
                      [test_data.sf_lon; test_data.zero] 5
                      test_data.warm_cache)
               = Return ["9q8yy"; "s0000"])
    by (vm_compute; reflexivity).
  split; [exact Hr|].
  exact (proj2 (proj2 (batch_lookups [test_data.sf_lat; test_data.zero]
           [test_data.sf_lon; test_data.zero] 5 test_data.warm_cache))
         ["9q8yy"; "s0000"] Hr).
Defined.

(** X5.  Whatever the cache holds, the list a call returns passes
    [assert_coordinate_lists_match] together with the two input lists:
    the three lists have the same length. *)
Theorem returned_list_matches_inputs
  (lats lons : list float) (precision : Z) (self : geohash_cache)
  (hs : list string) :
  fst (calculate_geohashes lats lons precision self) = Return hs ->
  test_utils.assert_coordinate_lists_match lats lons hs = test_utils.Pass.
Proof.
  unfold calculate_geohashes, test_utils.assert_coordinate_lists_match.
  destruct (List.length lats =? List.length lons)%nat eqn:Hlen; cbn [negb].
  - apply Nat.eqb_eq in Hlen. intros Hr.
    assert (Hhs : List.length hs = List.length lats).
    { destruct lats as [|lat lats].
      - cbn [fst] in Hr. now injection Hr as <-.
      - destruct (comprehension_lookups (combine (lat :: lats) lons)
                    precision self) as [_ Heq].
        destruct (Heq hs Hr) as [Hl _].
        rewrite Hl, length_combine, <- Hlen. apply Nat.min_id. }
    rewrite Hhs, Nat.eqb_refl. reflexivity.
  - cbn [fst]. intros H. discriminate H.
Qed.

Lemma returned_list_matches_inputs_witness :
  fst (calculate_geohashes [test_data.sf_lat; test_data.ny_lat]
         [test_data.sf_lon; test_data.ny_lon] 5 cache_clear)
  = Return ["9q8yy"; "dr5re"] /\
  test_utils.assert_coordinate_lists_match
    [test_data.sf_lat; test_data.ny_lat]
    [test_data.sf_lon; test_data.ny_lon] ["9q8yy"; "dr5re"]
  = test_utils.Pass.
Proof.
  assert (Hr : fst (calculate_geohashes [test_data.sf_lat; test_data.ny_lat]
                      [test_data.sf_lon; test_data.ny_lon] 5 cache_clear)
               = Return ["9q8yy"; "dr5re"])
    by (vm_compute; reflexivity).
  split; [exact Hr|].
  exact (returned_list_matches_inputs [test_data.sf_lat; test_data.ny_lat]
           [test_data.sf_lon; test_data.ny_lon] 5 cache_clear
           ["9q8yy"; "dr5re"] Hr).
Defined.

(** ** Facts on the helpers of [tests/test_utils.py] *)

(** A character passes the alphanumeric test and the test on i, l, o of
    its lower case exactly when it is one of [accepted_chars]. *)
Lemma accepted_char (c : ascii) :
  test_utils.isalnum_char c
  && negb (test_utils.in_ilo (test_utils.lower_char c))
  = existsb (Ascii.eqb c) (list_ascii_of_string test_utils.accepted_chars).
Proof.
  destruct c as [b0 b1 b2 b3 b4 b5 b6 b7].
  destruct b0, b1, b2, b3, b4, b5, b6, b7; vm_compute; reflexivity.
Qed.

Lemma existsb_eqb_In (c : ascii) (l : list ascii) :
  existsb (Ascii.eqb c) l = true <-> In c l.
Proof.
  rewrite existsb_exists. split.
  - intros (x & Hin & Heq). apply Ascii.eqb_eq in Heq. now subst.
  - intros Hin. exists c. split; [exact Hin|apply Ascii.eqb_refl].
Qed.

Lemma accepted_chars_forall (l : list ascii) :
  forallb test_utils.isalnum_char l = true /\
  existsb test_utils.in_ilo (map test_utils.lower_char l) = false
  <-> Forall (fun c => In c (list_ascii_of_string test_utils.accepted_chars))
             l.
Proof.
  induction l as [|c l IH]; cbn [forallb existsb map].
  - split; [constructor|auto].
  - rewrite Forall_cons_iff, <- IH, <- existsb_eqb_In, <- accepted_char.
    rewrite !andb_true_iff, orb_false_iff, negb_true_iff. tauto.
Qed.

Lemma assert_valid_geohash_pass (h : string) (precision : Z) :
  test_utils.assert_valid_geohash h precision = test_utils.Pass
  <-> (Z.of_nat (String.length h) = precision /\
       h <> EmptyString /\
       Forall (fun c =>
                 In c (list_ascii_of_string test_utils.accepted_chars))
              (list_ascii_of_string h)).
Proof.
  rewrite <- accepted_chars_forall.
  unfold test_utils.assert_valid_geohash, test_utils.lower.
  destruct (Z.of_nat (String.length h) =? precision) eqn:Hlen; cbn [negb].
  - apply Z.eqb_eq in Hlen.
    destruct h as [|c h].
    + cbn [test_utils.isalnum negb]. split; [discriminate|].
      intros (_ & H & _). now contradiction H.
    + cbn [test_utils.isalnum].
      destruct (forallb test_utils.isalnum_char
                  (list_ascii_of_string (String c h))); cbn [negb].
      * destruct (existsb test_utils.in_ilo
                    (map test_utils.lower_char
                       (list_ascii_of_string (String c h)))).
        -- split; [discriminate|]. intros (_ & _ & _ & H). discriminate H.
        -- split; [|reflexivity]. intros _.
           repeat split; [exact Hlen|discriminate].
      * split; [discriminate|]. intros (_ & _ & H & _). discriminate H.
  - apply Z.eqb_neq in Hlen. split; [discriminate|].
    intros (H & _). contradiction.
Qed.

(** X6.  On a string of characters below 128,
    [assert_valid_geohash] passes exactly when the string has the given
    length, is not empty, and is made of digits and letters of either
    case other than i, l and o: it lets through the letter a and the
    upper-case letters, which the geohash alphabet does not have. *)
Theorem assert_valid_geohash_accepts_exactly (h : string) (precision : Z) :
  test_utils.below_128 h = true ->
  (test_utils.assert_valid_geohash h precision = test_utils.Pass
   <-> (Z.of_nat (String.length h) = precision /\
        h <> EmptyString /\
        Forall (fun c =>
                  In c (list_ascii_of_string test_utils.accepted_chars))
               (list_ascii_of_string h))).
Proof.
  intros _. apply assert_valid_geohash_pass.
Qed.

Lemma assert_valid_geohash_accepts_exactly_witness :
  test_utils.below_128 "9Q8yya" = true /\
  (test_utils.assert_valid_geohash "9Q8yya" 6 = test_utils.Pass
   <-> (Z.of_nat (String.length "9Q8yya") = 6 /\
        "9Q8yya" <> EmptyString /\
        Forall (fun c =>
                  In c (list_ascii_of_string test_utils.accepted_chars))
               (list_ascii_of_string "9Q8yya"))).
Proof.
  assert (H : test_utils.below_128 "9Q8yya" = true)
    by (vm_compute; reflexivity).
  split; [exact H|].
  exact (assert_valid_geohash_accepts_exactly "9Q8yya" 6 H).
Defined.

(** X7.  [assert_valid_geohash] passes on every string over the geohash
    alphabet whose length is the given precision, when that precision
    is at least 1; the empty string fails even at precision 0. *)
Theorem assert_valid_geohash_accepts_geohashes
  (h : string) (precision : Z) :
  (1 <= precision ->
   Z.of_nat (String.length h) = precision ->
   in_alphabet h ->
   test_utils.assert_valid_geohash h precision = test_utils.Pass) /\
  test_utils.assert_valid_geohash EmptyString 0
  = test_utils.AssertionError
      [test_utils.Text "Geohash should be alphanumeric, got ";
       test_utils.Str EmptyString].
Proof.
  split; [|reflexivity].
  intros Hp Hlen Halpha. apply assert_valid_geohash_pass.
  split; [exact Hlen|]. split.
  - intros ->. simpl in Hlen. lia.
  - unfold in_alphabet in Halpha.
    eapply Forall_impl; [|exact Halpha].
    intros c Hc. apply existsb_eqb_In.
    apply existsb_eqb_In in Hc. revert Hc.
    destruct c as [b0 b1 b2 b3 b4 b5 b6 b7].
    destruct b0, b1, b2, b3, b4, b5, b6, b7; vm_compute;
      intros H; first [exact H|reflexivity].
Qed.

Lemma assert_valid_geohash_accepts_geohashes_witness :
  1 <= 12 /\
  Z.of_nat (String.length "9q8yyk8ytpxr") = 12 /\
  in_alphabet "9q8yyk8ytpxr" /\
  test_utils.assert_valid_geohash "9q8yyk8ytpxr" 12 = test_utils.Pass.
Proof.
  assert (Hp : 1 <= 12) by lia.
  assert (Hlen : Z.of_nat (String.length "9q8yyk8ytpxr") = 12)
    by reflexivity.
  assert (Ha : in_alphabet "9q8yyk8ytpxr").
  { unfold in_alphabet. rewrite Forall_forall. intros c Hc.
    apply existsb_eqb_In.
    cbn [list_ascii_of_string In] in Hc.
    repeat (destruct Hc as [<-|Hc]; [reflexivity|]). contradiction. }
  repeat (split; [assumption|]).
  exact (proj1 (assert_valid_geohash_accepts_geohashes "9q8yyk8ytpxr" 12)
           Hp Hlen Ha).
Defined.

(** ** Further facts on the memoizing wrapper *)

Section LruRecency.

Variables K V : Type.
Variable key_eq : K -> K -> bool.
Variable maxsize : nat.
Variable user_function : K -> outcome V.

Lemma cache_get_app key (l1 l2 : list (K * V)) :
  cache_get key_eq key (l1 ++ l2)
  = match cache_get key_eq key l1 with
    | Some (link, rest) => Some (link, rest ++ l2)
    | None =>
        match cache_get key_eq key l2 with
        | Some (link, rest) => Some (link, l1 ++ rest)
        | None => None
        end
    end.
Proof.
  induction l1 as [|x l1 IH]; cbn [app cache_get].
  - destruct (cache_get key_eq key l2) as [[link rest]|]; reflexivity.
  - destruct (key_eq key (fst x)); [reflexivity|].
    rewrite IH.
    destruct (cache_get key_eq key l1) as [[link rest]|]; [reflexivity|].
    destruct (cache_get key_eq key l2) as [[link rest]|]; reflexivity.
Qed.

(** The lookup succeeds exactly on the keys that have an entry. *)
Lemma cache_get_existsb key (l : list (K * V)) :
  cached key_eq key l = true ->
  exists link rest, cache_get key_eq key l = Some (link, rest).
Proof.
  unfold recent, cached.
  induction l as [|x l IH]; cbn [existsb cache_get]; intros H.
  - discriminate.
  - destruct (key_eq key (fst x)); [eauto|].
    destruct (IH H) as (link & rest & ->). eauto.
Qed.

(** Relinking an entry keeps the entries. *)
Lemma cache_get_existsb_same key (l : list (K * V)) (f : K * V -> bool) :
  forall link rest,
  cache_get key_eq key l = Some (link, rest) ->
  existsb f (rest ++ [link]) = existsb f l.
Proof.
  induction l as [|x l IH]; cbn [cache_get]; intros link rest H.
  - discriminate.
  - destruct (key_eq key (fst x)).
    + injection H as <- <-. rewrite existsb_app. cbn [existsb].
      rewrite orb_false_r. apply orb_comm.
    + destruct (cache_get key_eq key l) as [[found rest']|];
        [|discriminate].
      injection H as <- <-. cbn [app existsb].
      now rewrite (IH found rest' eq_refl).
Qed.

Lemma recent_nil (l : list (K * V)) : recent key_eq 0 [] l.
Proof.
  exists l, []. rewrite app_nil_r. repeat split; [apply Nat.le_refl|].
  constructor.
Qed.

Lemma recent_cached j keys (l : list (K * V)) :
  recent key_eq j keys l ->
  Forall (fun k => cached key_eq k l = true) keys.
Proof.
  unfold recent, cached.
  intros (l1 & l2 & -> & _ & H).
  eapply Forall_impl; [|exact H].
  intros k Hk. cbn beta in *. rewrite existsb_app, Hk. apply orb_true_r.
Qed.

(** A call that returns puts its key among the most recent entries and
    pushes the others back by one place at most; as long as fewer than
    [maxsize] places are concerned nothing of them is evicted. *)
Lemma wrapper_recent key self j keys v :
  recent key_eq j keys (cache self) ->
  (j < maxsize)%nat ->
  key_eq key key = true ->
  fst (lru_cache_wrapper key_eq maxsize user_function key self)
  = Return v ->
  recent key_eq (S j) (key :: keys)
    (cache (snd (lru_cache_wrapper key_eq maxsize user_function key self))).
Proof.
  unfold recent, cached.
  intros (l1 & l2 & Hl & Hlen & Hkeys) Hj Hrefl.
  unfold lru_cache_wrapper. rewrite Hl, cache_get_app.
  destruct (cache_get key_eq key l1) as [[link rest]|] eqn:H1.
  - intros _. cbn [snd cache].
    destruct (cache_get_Some _ _ key_eq key l1 link rest H1) as [Hk _].
    exists rest, (l2 ++ [link]). split; [now rewrite app_assoc|]. split.
    + rewrite length_app. cbn [List.length]. lia.
    + constructor.
      * rewrite existsb_app. cbn [existsb]. rewrite Hk.
        now rewrite orb_true_r.
      * eapply Forall_impl; [|exact Hkeys].
        intros k Hk'. cbn beta in *. now rewrite existsb_app, Hk'.
  - destruct (cache_get key_eq key l2) as [[link rest]|] eqn:H2.
    + intros _. cbn [snd cache].
      destruct (cache_get_Some _ _ key_eq key l2 link rest H2) as [Hk _].
      exists l1, (rest ++ [link]). split; [now rewrite app_assoc|]. split.
      * rewrite (cache_get_length _ _ key_eq key l2 link rest H2). lia.
      * constructor.
        -- rewrite existsb_app. cbn [existsb]. rewrite Hk.
           now rewrite orb_true_r.
        -- eapply Forall_impl; [|exact Hkeys].
           intros k Hk'. cbn beta in *.
           now rewrite (cache_get_existsb_same key l2 _ link rest H2).
    + destruct (user_function key) as [result|e]; cbn [fst snd cache];
        [intros _|intros H; discriminate H].
      assert (Hnew : Forall
                (fun k => cached key_eq k
                            (l2 ++ [(key, result)]) = true)
                (key :: keys)).
      { unfold cached. constructor.
        - rewrite existsb_app. cbn [existsb fst]. rewrite Hrefl.
          now rewrite orb_true_r.
        - eapply Forall_impl; [|exact Hkeys].
          intros k Hk'. cbn beta in *. now rewrite existsb_app, Hk'. }
      assert (Hlen' : (List.length (l2 ++ [(key, result)]) <= S j)%nat)
        by (rewrite length_app; cbn [List.length]; lia).
      destruct (List.length (l1 ++ l2) <? maxsize)%nat eqn:Hfull.
      * exists l1, (l2 ++ [(key, result)]).
        split; [now rewrite app_assoc|]. split; assumption.
      * apply Nat.ltb_ge in Hfull. rewrite length_app in Hfull.
        destruct l1 as [|x l1]; [cbn [List.length] in Hfull; lia|].
        exists l1, (l2 ++ [(key, result)]).
        split; [cbn [app tl]; now rewrite app_assoc|]. split; assumption.
Qed.

(** A call for a key that has an entry is a hit: the stored result is
    returned, the hit is counted, and the same entries remain. *)
Lemma wrapper_hit key self :
  cached key_eq key (cache self) = true ->
  let r := lru_cache_wrapper key_eq maxsize user_function key self in
  (exists v, fst r = Return v) /\
  hits (snd r) = S (hits self) /\
  misses (snd r) = misses self /\
  List.length (cache (snd r)) = List.length (cache self) /\
  forall f, existsb f (cache (snd r)) = existsb f (cache self).
Proof.
  unfold recent, cached.
  intros H. destruct (cache_get_existsb key (cache self) H)
    as (link & rest & Hget).
  cbn zeta. unfold lru_cache_wrapper. rewrite Hget.
  cbn [fst snd cache hits misses].
  split; [eauto|]. repeat split.
  - apply (cache_get_length _ _ key_eq key (cache self) link rest Hget).
  - intros f. apply (cache_get_existsb_same key (cache self) f link rest Hget).
Qed.

End LruRecency.

Section LruDistinct.

Variables K V : Type.
Variable key_eq : K -> K -> bool.
Variable maxsize : nat.
Variable user_function : K -> outcome V.

Hypothesis key_eq_sym : forall a b, key_eq a b = key_eq b a.

Lemma distinct_keys_snoc (l : list (K * V)) (y : K * V) :
  distinct_keys key_eq l ->
  Forall (fun x => key_eq (fst x) (fst y) = false) l ->
  distinct_keys key_eq (l ++ [y]).
Proof.
  unfold distinct_keys.
  induction l as [|x l IH]; intros Hd Hy; cbn [app].
  - constructor; constructor.
  - inversion Hd as [|? ? Hx Hl]; subst. inversion Hy; subst.
    constructor.
    + apply Forall_app. split; [exact Hx|]. constructor; [assumption|].
      constructor.
    + now apply IH.
Qed.

Lemma distinct_keys_relink key (l : list (K * V)) : forall link rest,
  distinct_keys key_eq l ->
  cache_get key_eq key l = Some (link, rest) ->
  distinct_keys key_eq (rest ++ [link]).
Proof.
  unfold distinct_keys.
  induction l as [|x l IH]; cbn [cache_get]; intros link rest Hd H.
  - discriminate.
  - inversion Hd as [|? ? Hx Hl]; subst.
    destruct (key_eq key (fst x)).
    + injection H as <- <-. apply distinct_keys_snoc; [exact Hl|].
      eapply Forall_impl; [|exact Hx].
      intros z Hz. cbn beta in *. now rewrite key_eq_sym.
    + destruct (cache_get key_eq key l) as [[found rest']|] eqn:Hget;
        [|discriminate].
      injection H as <- <-. cbn [app]. constructor.
      * destruct (cache_get_Some _ _ key_eq key l found rest' Hget)
          as [_ Hall].
        apply Hall. exact Hx.
      * now apply IH.
Qed.

(** No call gives two entries to equal keys. *)
Lemma wrapper_distinct key self :
  distinct_keys key_eq (cache self) ->
  distinct_keys key_eq
    (cache (snd (lru_cache_wrapper key_eq maxsize user_function key self))).
Proof.
  intros Hd. unfold lru_cache_wrapper.
  destruct (cache_get key_eq key (cache self)) as [[link rest]|] eqn:Hget.
  - cbn [snd cache]. now apply (distinct_keys_relink key (cache self)).
  - destruct (user_function key) as [result|e]; cbn [snd cache];
      [|exact Hd].
    pose proof (cache_get_None _ _ key_eq key (cache self) Hget) as Hnone.
    destruct (List.length (cache self) <? maxsize)%nat.
    + apply distinct_keys_snoc; [exact Hd|].
      eapply Forall_impl; [|exact Hnone].
      intros z Hz. cbn beta in *. cbn [fst]. now rewrite key_eq_sym.
    + destruct (cache self) as [|x l]; cbn [tl].
      * apply distinct_keys_snoc; [exact Hd|constructor].
      * unfold distinct_keys in Hd.
        inversion Hd as [|? ? Hx Hl]; subst. inversion Hnone; subst.
        apply distinct_keys_snoc; [exact Hl|].
        eapply Forall_impl; [|eassumption].
        intros z Hz. cbn beta in *. cbn [fst]. now rewrite key_eq_sym.
Qed.

End LruDistinct.

(** ** Invariants of the cache of [_calculate_single_geohash] *)

Lemma maxsize_pos : (0 < maxsize)%nat.
Proof. apply Nat.ltb_lt. vm_compute. reflexivity. Qed.

(** A property that the empty cache has and every call of the memoized
    function keeps holds of every cache a process can hold. *)
Lemma reachable_invariant (P : geohash_cache -> Prop) :
  P cache_clear ->
  (forall lat lon precision self,
     P self -> P (snd (_calculate_single_geohash lat lon precision self))) ->
  forall self, reachable self -> P self.
Proof.
  intros Hclear Hstep.
  assert (Hcomp : forall pairs precision self,
             P self -> P (snd (comprehension pairs precision self))).
  { induction pairs as [|[lat lon] pairs IH]; intros precision self HP;
      cbn [comprehension].
    - exact HP.
    - specialize (Hstep lat lon precision self HP).
      destruct (_calculate_single_geohash lat lon precision self)
        as [[h|e] self']; cbn [snd] in Hstep; [|exact Hstep].
      specialize (IH precision self' Hstep).
      destruct (comprehension pairs precision self') as [[hs|e] self''];
        exact IH. }
  induction 1 as [|lat lon precision self _ IH|lats lons precision self _ IH].
  - exact Hclear.
  - now apply Hstep.
  - unfold calculate_geohashes.
    destruct (negb (List.length lats =? List.length lons)%nat); [exact IH|].
    destruct lats; [exact IH|]. now apply Hcomp.
Qed.

Lemma eq_sym_float (x y : float) : Py.eq x y = Py.eq y x.
Proof.
  destruct (Py.eq x y) eqn:A, (Py.eq y x) eqn:B; try reflexivity; exfalso.
  - destruct (eq_true_inv x y A) as [->|(s & s' & -> & ->)].
    + congruence.
    + discriminate B.
  - destruct (eq_true_inv y x B) as [->|(s & s' & -> & ->)].
    + congruence.
    + discriminate A.
Qed.

Lemma args_eq_sym (a b : args) : args_eq a b = args_eq b a.
Proof.
  destruct a as [[lat1 lon1] p1], b as [[lat2 lon2] p2]. unfold args_eq.
  now rewrite (eq_sym_float lat1 lat2), (eq_sym_float lon1 lon2),
    (Z.eqb_sym p1 p2).
Qed.

(** A float that compares with a bound is not a NaN and equals
    itself. *)
Lemma le_eq_refl (a x : float) : le a x = true -> Py.eq x x = true.
Proof.
  unfold le, Py.eq, SFleb, SFeqb.
  destruct x as [s|s| |s m e]; cbn [SFcompare].
  - reflexivity.
  - destruct s; reflexivity.
  - destruct a; discriminate.
  - intros _. rewrite Z.compare_refl, Pos.compare_cont_refl.
    destruct s; reflexivity.
Qed.

Lemma valid_args_eq_refl lat lon precision :
  valid_triple lat lon precision = true ->
  args_eq (lat, lon, precision) (lat, lon, precision) = true.
Proof.
  unfold valid_triple, latitude_in_range, longitude_in_range, args_eq.
  rewrite !andb_true_iff. intros [[[[Hlat _] [Hlon _]] _] _].
  now rewrite (le_eq_refl _ _ Hlat), (le_eq_refl _ _ Hlon), Z.eqb_refl.
Qed.

Lemma wrapped_Return_inv lat lon precision h :
  _calculate_single_geohash__wrapped (lat, lon, precision) = Return h ->
  valid_triple lat lon precision = true /\
  h = geohash.encode lat lon precision.
Proof.
  intros H. destruct (valid_triple lat lon precision) eqn:Hv.
  - rewrite (wrapped_valid lat lon precision Hv) in H.
    injection H as <-. auto.
  - destruct (wrapped_invalid lat lon precision Hv) as [e He].
    rewrite He in H. discriminate H.
Qed.

(** X8.  The cache never holds more than 10000 entries, whatever calls
    were made. *)
Theorem cache_never_exceeds_maxsize (self : geohash_cache) :
  reachable self ->
  (List.length (cache self) <= 10000)%nat.
Proof.
  change 10000%nat with maxsize.
  apply (reachable_invariant
           (fun self => (List.length (cache self) <= maxsize)%nat)).
  - cbn [cache_clear cache List.length]. apply Nat.le_0_l.
  - intros lat lon precision self0 H.
    apply (wrapper_size _ _ args_eq maxsize
             _calculate_single_geohash__wrapped _ _ maxsize_pos H).
Qed.

Lemma cache_never_exceeds_maxsize_witness :
  reachable test_data.warm_cache /\
  (List.length (cache test_data.warm_cache) <= 10000)%nat.
Proof.
  assert (H : reachable test_data.warm_cache)
    by (apply reachable_batch; apply reachable_clear).
  split; [exact H|].
  exact (cache_never_exceeds_maxsize test_data.warm_cache H).
Defined.

(** X9.  Only results are stored, never errors: every entry of a cache
    a process can hold is for a triple that passes the three range
    checks, and holds the geohash of that triple. *)
Theorem cache_holds_valid_triples_only
  (self : geohash_cache) (lat lon : float) (precision : Z) (h : string) :
  reachable self ->
  In ((lat, lon, precision), h) (cache self) ->
  latitude_in_range lat = true /\
  longitude_in_range lon = true /\
  precision_in_range precision /\
  h = geohash.encode lat lon precision.
Proof.
  intros Hr Hin.
  pose proof (reachable_sound self Hr) as Hs.
  apply sound_cache_sound in Hs. unfold sound in Hs.
  rewrite Forall_forall in Hs. specialize (Hs _ Hin). cbn [fst snd] in Hs.
  destruct (wrapped_Return_inv lat lon precision h Hs) as [Hv ->].
  unfold valid_triple in Hv. rewrite <- andb_assoc in Hv.
  apply andb_prop in Hv. destruct Hv as [Hc Hp].
  apply andb_prop in Hc. destruct Hc as [Hlat Hlon].
  apply precision_in_range_iff in Hp. auto.
Qed.

Lemma cache_holds_valid_triples_only_witness :
  reachable test_data.warm_cache /\
  In ((test_data.ny_lat, test_data.ny_lon, 5), "dr5re")
     (cache test_data.warm_cache) /\
  latitude_in_range test_data.ny_lat = true /\
  longitude_in_range test_data.ny_lon = true /\
  precision_in_range 5 /\
  "dr5re" = geohash.encode test_data.ny_lat test_data.ny_lon 5.
Proof.
  assert (H : reachable test_data.warm_cache)
    by (apply reachable_batch; apply reachable_clear).
  assert (Hin : In ((test_data.ny_lat, test_data.ny_lon, 5), "dr5re")
                   (cache test_data.warm_cache))
    by (vm_compute; right; left; reflexivity).
  repeat (split; [assumption|]).
  exact (cache_holds_valid_triples_only test_data.warm_cache
           test_data.ny_lat test_data.ny_lon 5 "dr5re" H Hin).
Defined.

(** X10.  The cache never holds two entries whose argument triples are
    equal for Python ([==] on each component, so that 0.0 and -0.0 share
    one entry). *)
Theorem cache_keys_are_distinct (self : geohash_cache) :
  reachable self ->
  distinct_keys args_eq (cache self).
Proof.
  apply (reachable_invariant
           (fun self => distinct_keys args_eq (cache self))).
  - constructor.
  - intros lat lon precision self0 H.
    apply (wrapper_distinct _ _ args_eq maxsize
             _calculate_single_geohash__wrapped args_eq_sym _ _ H).
Qed.

Lemma cache_keys_are_distinct_witness :
  reachable test_data.warm_cache /\
  distinct_keys args_eq (cache test_data.warm_cache).
Proof.
  assert (H : reachable test_data.warm_cache)
    by (apply reachable_batch; apply reachable_clear).
  split; [exact H|].
  exact (cache_keys_are_distinct test_data.warm_cache H).
Defined.

(** ** Repeated calls *)

Lemma calculate_geohashes_comprehension lats lons precision self :
  List.length lats = List.length lons ->
  calculate_geohashes lats lons precision self
  = comprehension (combine lats lons) precision self.
Proof.
  intros Hlen. unfold calculate_geohashes.
  rewrite Hlen, Nat.eqb_refl. cbn [negb]. destruct lats; reflexivity.
Qed.

Lemma calculate_geohashes_Return_length lats lons precision self hs :
  fst (calculate_geohashes lats lons precision self) = Return hs ->
  List.length lats = List.length lons.
Proof.
  unfold calculate_geohashes.
  destruct (List.length lats =? List.length lons)%nat eqn:Hlen; cbn [negb].
  - intros _. now apply Nat.eqb_eq.
  - intros H. discriminate H.
Qed.

(** A returning call has arguments that equal themselves. *)
Lemma single_Return_refl lat lon precision self h :
  sound_cache self = true ->
  fst (_calculate_single_geohash lat lon precision self) = Return h ->
  args_eq (lat, lon, precision) (lat, lon, precision) = true.
Proof.
  intros Hs Hr. rewrite (single_result lat lon precision self Hs) in Hr.
  apply valid_args_eq_refl.
  now destruct (wrapped_Return_inv lat lon precision h Hr).
Qed.

(** After a batch that returns, the keys of its pairs are among the
    most recent entries, as long as the batch is not longer than the
    cache is large. *)
Lemma comprehension_recent pairs precision : forall self j keys hs,
  sound_cache self = true ->
  recent args_eq j keys (cache self) ->
  (j + List.length pairs <= maxsize)%nat ->
  fst (comprehension pairs precision self) = Return hs ->
  recent args_eq (j + List.length pairs)
    (rev_append (map (fun ll => (fst ll, snd ll, precision)) pairs) keys)
    (cache (snd (comprehension pairs precision self))).
Proof.
  induction pairs as [|[lat lon] pairs IH];
    intros self j keys hs Hs Hrec Hj; cbn [comprehension List.length map
                                           rev_append fst snd].
  - intros _. now rewrite Nat.add_0_r.
  - cbn [List.length] in Hj.
    pose proof (single_sound lat lon precision self Hs) as Hs'.
    pose proof (single_Return_refl lat lon precision self) as Hrefl.
    pose proof (wrapper_recent _ _ args_eq maxsize
                  _calculate_single_geohash__wrapped
                  (lat, lon, precision) self j keys) as Hstep.
    fold (_calculate_single_geohash lat lon precision self) in Hstep.
    destruct (_calculate_single_geohash lat lon precision self)
      as [[h|e] self']; cbn [fst snd] in *; [|intros H; discriminate H].
    specialize (Hstep h Hrec ltac:(lia) (Hrefl h Hs eq_refl) eq_refl).
    specialize (IH self' (S j) ((lat, lon, precision) :: keys)).
    destruct (comprehension pairs precision self') as [[hs'|e] self''];
      cbn [fst snd] in *; [|intros H; discriminate H].
    intros _. rewrite <- Nat.add_succ_comm.
    apply (IH hs' Hs' Hstep ltac:(lia) eq_refl).
Qed.

(** A batch whose keys all have entries is answered by hits alone. *)
Lemma comprehension_all_cached pairs precision : forall self,
  Forall (fun ll => cached args_eq (fst ll, snd ll, precision) (cache self)
                    = true) pairs ->
  (exists hs, fst (comprehension pairs precision self) = Return hs) /\
  hits (snd (comprehension pairs precision self))
  = (hits self + List.length pairs)%nat /\
  misses (snd (comprehension pairs precision self)) = misses self /\
  List.length (cache (snd (comprehension pairs precision self)))
  = List.length (cache self).
Proof.
  induction pairs as [|[lat lon] pairs IH]; intros self Hall;
    cbn [comprehension List.length].
  - cbn [fst snd]. repeat split; eauto.
  - inversion Hall as [|? ? Hk Hrest]; subst. cbn [fst snd] in Hk.
    destruct (wrapper_hit _ _ args_eq maxsize
                _calculate_single_geohash__wrapped
                (lat, lon, precision) self Hk)
      as ([v Hv] & Hh & Hm & Hl & Hsame).
    fold (_calculate_single_geohash lat lon precision self)
      in Hv, Hh, Hm, Hl, Hsame.
    destruct (_calculate_single_geohash lat lon precision self)
      as [o self']; cbn [fst snd] in *. subst o.
    assert (Hall' : Forall
              (fun ll => cached args_eq (fst ll, snd ll, precision)
                           (cache self') = true) pairs).
    { eapply Forall_impl; [|exact Hrest].
      intros ll Hll. cbn beta in *. unfold cached in *.
      now rewrite Hsame. }
    destruct (IH self' Hall') as ([hs Hhs] & Hh' & Hm' & Hl').
    destruct (comprehension pairs precision self') as [o self''];
      cbn [fst snd] in *. subst o. cbn [fst snd].
    repeat split; [eauto|lia|lia|lia].
Qed.

(** X11.  A batch of at most 10000 pairs that returns leaves every one
    of its pairs in the cache: the same call made again right after it
    returns the same list and is answered from the cache alone, with
    one hit per pair, no miss and no change in the number of entries. *)
Theorem repeated_batch_served_from_cache
  (lats lons : list float) (precision : Z) (self : geohash_cache)
  (hs : list string) :
  sound_cache self = true ->
  (List.length lats <= 10000)%nat ->
  fst (calculate_geohashes lats lons precision self) = Return hs ->
  let self1 := snd (calculate_geohashes lats lons precision self) in
  let again := calculate_geohashes lats lons precision self1 in
  fst again = Return hs /\
  hits (snd again) = (hits self1 + List.length lats)%nat /\
  misses (snd again) = misses self1 /\
  List.length (cache (snd again)) = List.length (cache self1).
Proof.
  change 10000%nat with maxsize.
  intros Hs Hmax Hr self1 again.
  pose proof (calculate_geohashes_Return_length _ _ _ _ _ Hr) as Hlen.
  destruct (calculate_geohashes_result lats lons precision self Hs)
    as [Hw Hs1].
  fold self1 in Hs1.
  destruct (calculate_geohashes_result lats lons precision self1 Hs1)
    as [Hw1 _].
  fold again in Hw1.
  split; [now rewrite Hw1, <- Hw|].
  assert (Hpairs : List.length (combine lats lons) = List.length lats)
    by (rewrite length_combine; lia).
  unfold again, self1 in *.
  rewrite (calculate_geohashes_comprehension lats lons precision _ Hlen).
  rewrite (calculate_geohashes_comprehension lats lons precision self Hlen)
    in *.
  pose proof (comprehension_recent (combine lats lons) precision self
                0%nat [] hs Hs (recent_nil _ _ args_eq (cache self))
                ltac:(cbn [Nat.add]; lia) Hr) as Hrec.
  apply recent_cached in Hrec.
  assert (Hall : Forall
            (fun ll => cached args_eq (fst ll, snd ll, precision)
                         (cache (snd (comprehension (combine lats lons)
                                        precision self))) = true)
            (combine lats lons)).
  { rewrite Forall_forall in Hrec. apply Forall_forall. intros ll Hin.
    apply Hrec. rewrite rev_append_rev, app_nil_r. apply -> in_rev.
    apply (in_map (fun ll => (fst ll, snd ll, precision))). exact Hin. }
  destruct (comprehension_all_cached (combine lats lons) precision _ Hall)
    as (_ & Hh & Hm & Hl).
  rewrite Hpairs in Hh. auto.
Qed.

Lemma repeated_batch_served_from_cache_witness :
  sound_cache cache_clear = true /\
  (List.length [test_data.sf_lat; test_data.ny_lat; test_data.sf_lat]
   <= 10000)%nat /\
  fst (calculate_geohashes
         [test_data.sf_lat; test_data.ny_lat; test_data.sf_lat]
         [test_data.sf_lon; test_data.ny_lon; test_data.sf_lon]
         5 cache_clear)
  = Return ["9q8yy"; "dr5re"; "9q8yy"] /\
  fst (calculate_geohashes
         [test_data.sf_lat; test_data.ny_lat; test_data.sf_lat]
         [test_data.sf_lon; test_data.ny_lon; test_data.sf_lon] 5
         (snd (calculate_geohashes
                 [test_data.sf_lat; test_data.ny_lat; test_data.sf_lat]
                 [test_data.sf_lon; test_data.ny_lon; test_data.sf_lon]
                 5 cache_clear)))
  = Return ["9q8yy"; "dr5re"; "9q8yy"].
Proof.
  assert (Hs : sound_cache (@cache_clear args string) = true)
    by reflexivity.
  assert (Hmax : (List.length
                    [test_data.sf_lat; test_data.ny_lat; test_data.sf_lat]
                  <= 10000)%nat)
    by (apply Nat.leb_le; vm_compute; reflexivity).
  assert (Hr : fst (calculate_geohashes
                      [test_data.sf_lat; test_data.ny_lat; test_data.sf_lat]
                      [test_data.sf_lon; test_data.ny_lon; test_data.sf_lon]
                      5 cache_clear)
               = Return ["9q8yy"; "dr5re"; "9q8yy"])
    by (vm_compute; reflexivity).
  repeat (split; [assumption|]).
  exact (proj1 (repeated_batch_served_from_cache
           [test_data.sf_lat; test_data.ny_lat; test_data.sf_lat]
           [test_data.sf_lon; test_data.ny_lon; test_data.sf_lon]
           5 cache_clear ["9q8yy"; "dr5re"; "9q8yy"] Hs Hmax Hr)).
Defined.

Section LruRecentOrder.

Variables K V : Type.
Variable key_eq : K -> K -> bool.

Lemma recent_le j j' keys (l : list (K * V)) :
  recent key_eq j keys l -> (j <= j')%nat -> recent key_eq j' keys l.
Proof.
  intros (l1 & l2 & Hl & Hlen & Hk) Hj.
  exists l1, l2. repeat split; [exact Hl|lia|exact Hk].
Qed.

Lemma recent_tail j k keys (l : list (K * V)) :
  recent key_eq j (k :: keys) l -> recent key_eq j keys l.
Proof.
  intros (l1 & l2 & Hl & Hlen & Hk).
  exists l1, l2. repeat split; [exact Hl|exact Hlen|].
  now inversion Hk.
Qed.

End LruRecentOrder.

(** X12.  The cache is shared by the two functions: once
    [_calculate_single_geohash] has returned a geohash on a sound cache,
    the same call made again is a hit that returns the same string, and
    so is the batch call on the one-element lists of the same
    arguments. *)
Theorem single_call_is_cached
  (lat lon : float) (precision : Z) (self : geohash_cache) (h : string) :
  sound_cache self = true ->
  fst (_calculate_single_geohash lat lon precision self) = Return h ->
  let self1 := snd (_calculate_single_geohash lat lon precision self) in
  let again := _calculate_single_geohash lat lon precision self1 in
  let batch := calculate_geohashes [lat] [lon] precision self1 in
  fst again = Return h /\
  hits (snd again) = S (hits self1) /\
  misses (snd again) = misses self1 /\
  fst batch = Return [h] /\
  hits (snd batch) = S (hits self1) /\
  misses (snd batch) = misses self1.
Proof.
  intros Hs Hr self1 again batch.
  pose proof (single_sound lat lon precision self Hs) as Hs1.
  fold self1 in Hs1.
  pose proof (wrapper_recent _ _ args_eq maxsize
                _calculate_single_geohash__wrapped (lat, lon, precision)
                self 0%nat [] h (recent_nil _ _ args_eq (cache self))
                maxsize_pos
                (single_Return_refl lat lon precision self h Hs Hr) Hr)
    as Hrec.
  apply recent_cached in Hrec. inversion Hrec as [|? ? Hk _]; subst.
  fold (_calculate_single_geohash lat lon precision self) in Hk.
  fold self1 in Hk.
  assert (Hh : fst again = Return h).
  { unfold again. rewrite (single_result lat lon precision self1 Hs1).
    now rewrite <- (single_result lat lon precision self Hs). }
  destruct (wrapper_hit _ _ args_eq maxsize
              _calculate_single_geohash__wrapped (lat, lon, precision)
              self1 Hk) as (_ & Hhits & Hmiss & _).
  fold (_calculate_single_geohash lat lon precision self1) in Hhits, Hmiss.
  fold again in Hhits, Hmiss.
  assert (Hb : batch
               = (Return [h], snd again)).
  { unfold batch, calculate_geohashes.
    cbn [List.length Nat.eqb negb combine comprehension].
    fold again. destruct again as [o s]. cbn [fst snd] in *. now subst o. }
  rewrite Hb. cbn [fst snd]. repeat split; assumption.
Qed.

Lemma single_call_is_cached_witness :
  sound_cache cache_clear = true /\
  fst (_calculate_single_geohash test_data.sf_lat test_data.sf_lon 5
         cache_clear) = Return "9q8yy" /\
  fst (calculate_geohashes [test_data.sf_lat] [test_data.sf_lon] 5
         (snd (_calculate_single_geohash test_data.sf_lat test_data.sf_lon
                 5 cache_clear)))
  = Return ["9q8yy"] /\
  misses (snd (calculate_geohashes [test_data.sf_lat] [test_data.sf_lon] 5
         (snd (_calculate_single_geohash test_data.sf_lat test_data.sf_lon
                 5 cache_clear))))
  = misses (snd (_calculate_single_geohash test_data.sf_lat
                   test_data.sf_lon 5 cache_clear)).
Proof.
  assert (Hs : sound_cache (@cache_clear args string) = true)
    by reflexivity.
  assert (Hr : fst (_calculate_single_geohash test_data.sf_lat
                      test_data.sf_lon 5 cache_clear) = Return "9q8yy")
    by (vm_compute; reflexivity).
  repeat (split; [assumption|]).
  destruct (single_call_is_cached test_data.sf_lat test_data.sf_lon 5
              cache_clear "9q8yy" Hs Hr)
    as (_ & _ & _ & Hb & _ & Hm).
  split; assumption.
Defined.

(** Entries among the most recent ones stay so through a further batch,
    whether it returns or raises, while the places concerned are fewer
    than the cache is large. *)
Lemma comprehension_keeps_recent pairs precision : forall self j keys,
  sound_cache self = true ->
  recent args_eq j keys (cache self) ->
  (j + List.length pairs <= maxsize)%nat ->
  recent args_eq (j + List.length pairs) keys
    (cache (snd (comprehension pairs precision self))).
Proof.
  induction pairs as [|[lat lon] pairs IH]; intros self j keys Hs Hrec Hj;
    cbn [comprehension List.length snd].
  - now rewrite Nat.add_0_r.
  - cbn [List.length] in Hj.
    pose proof (single_sound lat lon precision self Hs) as Hs'.
    pose proof (single_Return_refl lat lon precision self) as Hrefl.
    pose proof (single_result lat lon precision self Hs) as Hres.
    pose proof (wrapper_recent _ _ args_eq maxsize
                  _calculate_single_geohash__wrapped
                  (lat, lon, precision) self j keys) as Hstep.
    pose proof (single_raise lat lon precision self) as Hraise.
    fold (_calculate_single_geohash lat lon precision self) in Hstep.
    destruct (_calculate_single_geohash lat lon precision self)
      as [[h|e] self']; cbn [fst snd] in *.
    + specialize (Hstep h Hrec ltac:(lia) (Hrefl h Hs eq_refl) eq_refl).
      apply recent_tail in Hstep.
      specialize (IH self' (S j) keys Hs' Hstep ltac:(lia)).
      rewrite <- Nat.add_succ_comm.
      destruct (comprehension pairs precision self') as [[hs'|e] self''];
        exact IH.
    + specialize (Hraise e Hs (eq_sym Hres)).
      injection Hraise as ->. cbn [count_miss cache].
      apply (recent_le _ _ args_eq j _ keys (cache self) Hrec). lia.
Qed.

(** X13.  What a batch has stored outlives the next call: after a batch
    that returns, one further call of [calculate_geohashes], returning
    or raising, and with the first batch at most 10000 pairs in all,
    leaves every pair of the first batch in the cache; the first call
    made again returns the same list by hits alone. *)
Theorem batch_survives_next_call
  (lats lons lats' lons' : list float) (precision precision' : Z)
  (self : geohash_cache) (hs : list string) :
  sound_cache self = true ->
  (List.length lats + List.length lats' <= 10000)%nat ->
  fst (calculate_geohashes lats lons precision self) = Return hs ->
  let self1 := snd (calculate_geohashes lats lons precision self) in
  let self2 := snd (calculate_geohashes lats' lons' precision' self1) in
  let again := calculate_geohashes lats lons precision self2 in
  fst again = Return hs /\
  hits (snd again) = (hits self2 + List.length lats)%nat /\
  misses (snd again) = misses self2.
Proof.
  change 10000%nat with maxsize.
  intros Hs Hmax Hr self1 self2 again.
  pose proof (calculate_geohashes_Return_length _ _ _ _ _ Hr) as Hlen.
  destruct (calculate_geohashes_result lats lons precision self Hs)
    as [Hw Hs1]. fold self1 in Hs1.
  destruct (calculate_geohashes_result lats' lons' precision' self1 Hs1)
    as [_ Hs2]. fold self2 in Hs2.
  destruct (calculate_geohashes_result lats lons precision self2 Hs2)
    as [Hw2 _]. fold again in Hw2.
  split; [now rewrite Hw2, <- Hw|].
  assert (Hpairs : List.length (combine lats lons) = List.length lats)
    by (rewrite length_combine; lia).
  pose proof Hr as Hr'.
  rewrite (calculate_geohashes_comprehension lats lons precision self Hlen)
    in Hr'.
  pose proof (comprehension_recent (combine lats lons) precision self
                0%nat [] hs Hs (recent_nil _ _ args_eq (cache self))
                ltac:(cbn [Nat.add]; lia) Hr') as Hrec.
  rewrite <- (calculate_geohashes_comprehension lats lons precision self
                Hlen) in Hrec.
  fold self1 in Hrec. cbn [Nat.add] in Hrec. rewrite Hpairs in Hrec.
  assert (Hrec2 : recent args_eq (List.length lats + List.length lats')
                    (rev_append
                       (map (fun ll => (fst ll, snd ll, precision))
                            (combine lats lons)) [])
                    (cache self2)).
  { unfold self2, calculate_geohashes.
    destruct (negb (List.length lats' =? List.length lons')%nat);
      cbn [snd].
    - apply (recent_le _ _ args_eq _ _ _ _ Hrec). lia.
    - destruct lats' as [|lat' lats'].
      + cbn [snd]. apply (recent_le _ _ args_eq _ _ _ _ Hrec). lia.
      + assert (Hc : (List.length (combine (lat' :: lats') lons')
                      <= List.length (lat' :: lats'))%nat)
          by (rewrite length_combine; lia).
        eapply recent_le.
        * apply (comprehension_keeps_recent _ precision' self1 _ _
                   Hs1 Hrec). lia.
        * lia. }
  apply recent_cached in Hrec2.
  assert (Hall : Forall
            (fun ll => cached args_eq (fst ll, snd ll, precision)
                         (cache self2) = true)
            (combine lats lons)).
  { rewrite Forall_forall in Hrec2. apply Forall_forall. intros ll Hin.
    apply Hrec2. rewrite rev_append_rev, app_nil_r. apply -> in_rev.
    apply (in_map (fun ll => (fst ll, snd ll, precision))). exact Hin. }
  destruct (comprehension_all_cached (combine lats lons) precision _ Hall)
    as (_ & Hh & Hm & _).
  unfold again.
  rewrite (calculate_geohashes_comprehension lats lons precision self2 Hlen).
  rewrite Hpairs in Hh. auto.
Qed.

Lemma batch_survives_next_call_witness :
  sound_cache cache_clear = true /\
  (List.length [test_data.sf_lat; test_data.ny_lat]
   + List.length [test_data.lat_91] <= 10000)%nat /\
  fst (calculate_geohashes [test_data.sf_lat; test_data.ny_lat]
         [test_data.sf_lon; test_data.ny_lon] 5 cache_clear)
  = Return ["9q8yy"; "dr5re"] /\
  fst (calculate_geohashes [test_data.sf_lat; test_data.ny_lat]
         [test_data.sf_lon; test_data.ny_lon] 5
         (snd (calculate_geohashes [test_data.lat_91] [test_data.zero] 5
                 (snd (calculate_geohashes
                         [test_data.sf_lat; test_data.ny_lat]
                         [test_data.sf_lon; test_data.ny_lon] 5
                         cache_clear)))))
  = Return ["9q8yy"; "dr5re"].
Proof.
  assert (Hs : sound_cache (@cache_clear args string) = true)
    by reflexivity.
  assert (Hmax : (List.length [test_data.sf_lat; test_data.ny_lat]
                  + List.length [test_data.lat_91] <= 10000)%nat)
    by (apply Nat.leb_le; vm_compute; reflexivity).
  assert (Hr : fst (calculate_geohashes [test_data.sf_lat; test_data.ny_lat]
                      [test_data.sf_lon; test_data.ny_lon] 5 cache_clear)
               = Return ["9q8yy"; "dr5re"])
    by (vm_compute; reflexivity).
  repeat (split; [assumption|]).
  exact (proj1 (batch_survives_next_call
           [test_data.sf_lat; test_data.ny_lat]
           [test_data.sf_lon; test_data.ny_lon]
           [test_data.lat_91] [test_data.zero] 5 5 cache_clear
           ["9q8yy"; "dr5re"] Hs Hmax Hr)).
Defined.

(** ** A batch that fails part-way *)

(** C5, as stated, fails: with the San Francisco pair, then latitude
    91.0, then the New York pair, the call raises the latitude error,
    and the cache it leaves is not the one the call on the San
    Francisco pair alone leaves: two misses are counted against one. *)
Lemma failed_batch_miss_counterexample :
  fst (calculate_geohashes
         [test_data.sf_lat; test_data.lat_91; test_data.ny_lat]
         [test_data.sf_lon; test_data.zero; test_data.ny_lon]
         5 cache_clear)
  = Raise (latitude_message test_data.lat_91) /\
  misses (snd (calculate_geohashes
                 [test_data.sf_lat; test_data.lat_91; test_data.ny_lat]
                 [test_data.sf_lon; test_data.zero; test_data.ny_lon]
                 5 cache_clear)) = 2%nat /\
  misses (snd (calculate_geohashes [test_data.sf_lat] [test_data.sf_lon]
                 5 cache_clear)) = 1%nat /\
  snd (calculate_geohashes
         [test_data.sf_lat; test_data.lat_91; test_data.ny_lat]
         [test_data.sf_lon; test_data.zero; test_data.ny_lon]
         5 cache_clear)
  <> snd (calculate_geohashes [test_data.sf_lat] [test_data.sf_lon]
            5 cache_clear).
Proof.
  repeat split; try (vm_compute; reflexivity).
  intros H. apply (f_equal (@misses args string)) in H.
  vm_compute in H. discriminate H.
Qed.

(** C5, as amended.  A batch of equal lengths whose first invalid pair
    sits after the pairs [lats1], [lons1]: the call raises the error of
    that pair and returns nothing.  The call on [lats1], [lons1] alone
    returns their geohashes, and the failed call leaves the stored
    entries, their order and the hit count that call leaves, with one
    more miss counted, for the lookup of the failing pair; any later
    call returns from either cache the same and leaves the same entries.
    The writes of the prefix are kept: when it has at most 10000 pairs,
    each of them has its entry in the cache after the failure, and the
    call on the prefix made then returns their geohashes by hits alone,
    one per pair, without a miss. *)
Theorem failed_batch_keeps_prefix
  (lats1 lats2 lons1 lons2 : list float) (lat lon : float)
  (precision : Z) (self : geohash_cache) :
  sound_cache self = true ->
  List.length lats1 = List.length lons1 ->
  List.length lats2 = List.length lons2 ->
  forallb (fun ll => valid_triple (fst ll) (snd ll) precision)
          (combine lats1 lons1) = true ->
  valid_triple lat lon precision = false ->
  let failed :=
    calculate_geohashes (lats1 ++ lat :: lats2) (lons1 ++ lon :: lons2)
      precision self in
  let prefix := calculate_geohashes lats1 lons1 precision self in
  exists e hs,
    _calculate_single_geohash__wrapped (lat, lon, precision) = Raise e /\
    fst failed = Raise e /\
    fst prefix = Return hs /\
    hs = map (encode_pair precision) (combine lats1 lons1) /\
    cache (snd failed) = cache (snd prefix) /\
    hits (snd failed) = hits (snd prefix) /\
    misses (snd failed) = S (misses (snd prefix)) /\
    (forall lats' lons' precision',
       fst (calculate_geohashes lats' lons' precision' (snd failed))
       = fst (calculate_geohashes lats' lons' precision' (snd prefix)) /\
       cache (snd (calculate_geohashes lats' lons' precision' (snd failed)))
       = cache (snd (calculate_geohashes lats' lons' precision'
                       (snd prefix)))) /\
    ((List.length lats1 <= 10000)%nat ->
     Forall (fun ll => cached args_eq (fst ll, snd ll, precision)
                         (cache (snd failed)) = true)
            (combine lats1 lons1) /\
     fst (calculate_geohashes lats1 lons1 precision (snd failed))
     = Return hs /\
     hits (snd (calculate_geohashes lats1 lons1 precision (snd failed)))
     = (hits (snd failed) + List.length lats1)%nat /\
     misses (snd (calculate_geohashes lats1 lons1 precision (snd failed)))
     = misses (snd failed)).
Proof.
  intros Hs Hlen1 Hlen2 Hpre Hbad failed prefix.
  destruct (wrapped_invalid lat lon precision Hbad) as [e He].
  destruct (comprehension_abort (combine lats1 lons1) lat lon
              (combine lats2 lons2) precision e self Hs Hpre He)
    as [[hs Hhs] Hab].
  set (after := snd (comprehension (combine lats1 lons1) precision self))
    in *.
  assert (Hfailed : failed = (Raise e, count_miss after)).
  { unfold failed, calculate_geohashes.
    rewrite !length_app. cbn [List.length]. rewrite Hlen1, Hlen2.
    rewrite Nat.eqb_refl. cbn [negb].
    rewrite (combine_app_cons lats1 lats2 lons1 lons2 lat lon Hlen1).
    rewrite <- Hab.
    destruct lats1; reflexivity. }
  assert (Hprefix : prefix = comprehension (combine lats1 lons1)
                               precision self)
    by apply (calculate_geohashes_comprehension _ _ _ _ Hlen1).
  destruct (comprehension_result (combine lats1 lons1) precision self Hs)
    as [Hw Hsafter]. fold after in Hsafter.
  assert (Hmap : hs = map (encode_pair precision) (combine lats1 lons1)).
  { rewrite Hhs in Hw.
    rewrite (comprehension__wrapped_valid _ _ Hpre) in Hw.
    now injection Hw. }
  assert (Hpairs : List.length (combine lats1 lons1) = List.length lats1)
    by (rewrite length_combine; lia).
  exists e, hs. rewrite Hfailed, Hprefix. cbn [fst snd].
  fold after. cbn [count_miss cache hits misses].
  split; [exact He|]. split; [reflexivity|]. split; [exact Hhs|].
  split; [exact Hmap|]. split; [reflexivity|]. split; [reflexivity|].
  split; [reflexivity|]. split.
  - intros lats' lons' precision'.
    change {| cache := cache after; hits := hits after;
              misses := S (misses after) |} with (count_miss after).
    rewrite calculate_geohashes_count_miss. split; reflexivity.
  - change 10000%nat with maxsize. intros Hmax.
    change {| cache := cache after; hits := hits after;
              misses := S (misses after) |} with (count_miss after).
    pose proof (comprehension_recent (combine lats1 lons1) precision self
                  0%nat [] hs Hs (recent_nil _ _ args_eq (cache self))
                  ltac:(cbn [Nat.add]; lia) Hhs) as Hrec.
    fold after in Hrec. apply recent_cached in Hrec.
    assert (Hall : Forall
              (fun ll => cached args_eq (fst ll, snd ll, precision)
                           (cache after) = true)
              (combine lats1 lons1)).
    { rewrite Forall_forall in Hrec. apply Forall_forall. intros ll Hin.
      apply Hrec. rewrite rev_append_rev, app_nil_r. apply -> in_rev.
      apply (in_map (fun ll => (fst ll, snd ll, precision))). exact Hin. }
    split; [exact Hall|].
    rewrite calculate_geohashes_count_miss. cbn [fst snd].
    rewrite (calculate_geohashes_comprehension lats1 lons1 precision
               after Hlen1).
    destruct (comprehension_all_cached (combine lats1 lons1) precision
                after Hall) as (_ & Hh & Hm & _).
    destruct (comprehension_result (combine lats1 lons1) precision after
                Hsafter) as [Hw' _].
    cbn [count_miss hits misses].
    rewrite Hpairs in Hh.
    split; [now rewrite Hw', <- Hw|]. split; [exact Hh|].
    now rewrite Hm.
Qed.

Lemma failed_batch_keeps_prefix_witness :
  sound_cache cache_clear = true /\
  List.length [test_data.sf_lat] = List.length [test_data.sf_lon] /\
  List.length [test_data.ny_lat] = List.length [test_data.ny_lon] /\
  forallb (fun ll => valid_triple (fst ll) (snd ll) 5)
          (combine [test_data.sf_lat] [test_data.sf_lon]) = true /\
  valid_triple test_data.lat_91 test_data.zero 5 = false /\
  (List.length [test_data.sf_lat] <= 10000)%nat /\
  exists e hs,
    fst (calculate_geohashes
           ([test_data.sf_lat] ++ test_data.lat_91 :: [test_data.ny_lat])
           ([test_data.sf_lon] ++ test_data.zero :: [test_data.ny_lon])
           5 cache_clear) = Raise e /\
    fst (calculate_geohashes [test_data.sf_lat] [test_data.sf_lon] 5
           cache_clear) = Return hs /\
    cache (snd (calculate_geohashes
           ([test_data.sf_lat] ++ test_data.lat_91 :: [test_data.ny_lat])
           ([test_data.sf_lon] ++ test_data.zero :: [test_data.ny_lon])
           5 cache_clear))
    = cache (snd (calculate_geohashes [test_data.sf_lat] [test_data.sf_lon]
                    5 cache_clear)) /\
    fst (calculate_geohashes [test_data.sf_lat] [test_data.sf_lon] 5
           (snd (calculate_geohashes
              ([test_data.sf_lat] ++ test_data.lat_91 :: [test_data.ny_lat])
              ([test_data.sf_lon] ++ test_data.zero :: [test_data.ny_lon])
              5 cache_clear)))
    = Return hs.
Proof.
  assert (Hs : sound_cache (@cache_clear args string) = true)
    by reflexivity.
  assert (H1 : List.length [test_data.sf_lat]
               = List.length [test_data.sf_lon]) by reflexivity.
  assert (H2 : List.length [test_data.ny_lat]
               = List.length [test_data.ny_lon]) by reflexivity.
  assert (Hpre : forallb (fun ll => valid_triple (fst ll) (snd ll) 5)
                   (combine [test_data.sf_lat] [test_data.sf_lon]) = true)
    by (vm_compute; reflexivity).
  assert (Hbad : valid_triple test_data.lat_91 test_data.zero 5 = false)
    by (vm_compute; reflexivity).
  assert (Hmax : (List.length [test_data.sf_lat] <= 10000)%nat)
    by (apply Nat.leb_le; vm_compute; reflexivity).
  repeat (split; [assumption|]).
  destruct (failed_batch_keeps_prefix [test_data.sf_lat] [test_data.ny_lat]
              [test_data.sf_lon] [test_data.ny_lon]
              test_data.lat_91 test_data.zero 5 cache_clear
              Hs H1 H2 Hpre Hbad)
    as (e & hs & _ & Hf & Hp & _ & Hc & _ & _ & _ & Hkept).
  destruct (Hkept Hmax) as (_ & Hagain & _).
  exists e, hs. repeat split; assumption.
Defined.
